(** * watchserverfile: the reload protocol of [WatchServerFile.go]

    A shallow embedding of the Go package [watchserverfile] as an
    interleaving small-step semantics.  The package runs three kinds of
    goroutines over one shared [Server]:

    - the caller of [ListenAndServe], which runs the rebuild callback once
      and then becomes the accept loop of [listenAndServe];
    - the anonymous goroutine started by [ListenAndServe] (the reload
      coordinator), which clears the handler, runs the callback and sends
      on [reloadServe], forever;
    - [watchFile], started by [New], which forwards write events of the
      file watcher on [ReloadFile];

    and one goroutine per serve cycle.  Every shared-memory access and every
    channel operation of the source is one atomic step here; a schedule is a
    list of [action]s, a blocked or finished goroutine has no step. *)

From Stdlib Require Import ZArith List String Bool Arith Lia.
Import ListNotations.
Open Scope string_scope.
Open Scope list_scope.

(** ** External packages *)

(** [gopkg.in/fsnotify.v1]: [type Op uint32], with
    [const ( Create Op = 1 << iota; Write; Remove; Rename; Chmod )], and
    [type Event struct { Name string; Op Op }]. *)
Module fsnotify.
Definition Create : Z := Z.shiftl 1 0.
Definition Write  : Z := Z.shiftl 1 1.
Definition Remove : Z := Z.shiftl 1 2.
Definition Rename : Z := Z.shiftl 1 3.
Definition Chmod  : Z := Z.shiftl 1 4.

Record Event := { Name : string; Op : Z }.
End fsnotify.

(** A Go [error], by its message. *)
Definition error := string.

(** The identity of a [net.Listener]. *)
Definition listener := nat.

(** An [http.Handler] interface value; [None] is Go's [nil]. *)
Definition http_Handler := option nat.

(** What the package asks of its environment: the results of
    [fsnotify.NewWatcher()], of [watcher.Add(filename)] and of
    [net.Listen("tcp", addr)]. *)
Record World := {
  NewWatcher_err : option error;
  Add_err : string -> option error;
  net_Listen : string -> error + listener
}.

(** ** Channels

    A buffered Go channel is its queue of pending values, oldest first.
    A send blocks while the queue holds [cap] values, a receive blocks while
    it is empty; [None] is "blocked".  Both channels of [Server] are made
    with capacity 1. *)
Definition chan_send {A} (cap : nat) (v : A) (buf : list A) : option (list A) :=
  if Nat.ltb (List.length buf) cap then Some (buf ++ [v]) else None.

Definition chan_recv {A} (buf : list A) : option (A * list A) :=
  match buf with
  | [] => None
  | v :: rest => Some (v, rest)
  end.

(** ** The rebuild callback

    A [ReloadHandlerFunc] is code of the package's user.  What it can do to
    the server that matters to the protocol is receive from the exported
    channel [ws.ReloadFile] and call [ws.Handler(h)]; a callback is a finite
    tree of these two operations. *)
Inductive cb :=
| CbRet
| CbRecv (k : string -> cb)
| CbInstall (h : http_Handler) (k : cb).

(** ** The server and the goroutines *)

Record Server := {
  ReloadFile : list string;      (* chan string, capacity 1 *)
  reloadFunc : option cb;
  reloadServe : list unit;       (* chan struct{}, capacity 1 *)
  Addr : string;                 (* http.Server.Addr *)
  Handler : http_Handler         (* http.Server.Handler *)
}.

Definition cap_ReloadFile : nat := 1.   (* make(chan string, 1) *)
Definition cap_reloadServe : nat := 1.  (* make(chan struct{}, 1) *)

(** The goroutines that run the callback. *)
Inductive tid := TMain | TCoord.

(** The locals of [listenAndServe]: [addr], [ln] and the stack of deferred
    [l.Close()] calls, last deferred first. *)
Record frame := { f_addr : string; f_ln : listener; f_defers : list listener }.

(** The caller of [ListenAndServe]. *)
Inductive main_pc :=
| MStart                  (* New has returned; ListenAndServe not yet called *)
| MCall                   (* line 49: about to call ws.reloadFunc(ws) *)
| MReload (k : cb)        (* line 49: inside the callback, [k] left to run *)
| MListen                 (* line 50: entering listenAndServe *)
| MLoop (fr : frame)      (* line 68: top of the for loop *)
| MWait (fr : frame)      (* line 74: <-ws.reloadServe *)
| MReturned (err : error) (* line 65: return err *).

(** The goroutine of lines 40-47. *)
Inductive coord_pc :=
| CNotStarted
| CClear                  (* line 43: ws.Handler(nil) *)
| CCall                   (* line 44: about to call ws.reloadFunc(ws) *)
| CReload (k : cb)        (* line 44: inside the callback *)
| CSend                   (* line 45: ws.reloadServe <- struct{}{} *).

(** [watchFile]: at the [select], or at the send of line 86 holding the
    event's name. *)
Inductive watch_pc :=
| WSelect
| WSend (name : string).

(** A serve-cycle goroutine of lines 70-73: before its log line, or inside
    [ws.Serve(l)]. *)
Inductive serve_pc :=
| SStart (addr : string) (l : listener)
| SServe (l : listener).

(** What a step does, for the trace. *)
Inductive label :=
| LPreload (name : string)            (* line 112 *)
| LGo                                 (* line 40 *)
| LInvoke (t : tid)                   (* ws.reloadFunc(ws) is called *)
| LRecvFile (t : tid) (name : string) (* the callback receives from ReloadFile *)
| LInstall (t : tid) (h : http_Handler) (* the callback calls ws.Handler(h) *)
| LReturn (t : tid)                   (* ws.reloadFunc(ws) returns *)
| LClear                              (* line 43 *)
| LSignal                             (* line 45, the send completes *)
| LListen (addr : string) (r : error + listener) (* line 63 *)
| LSpawn (l : listener) (h : http_Handler)
      (* line 70; [h] is ws.Server.Handler at that moment *)
| LResume                             (* line 74, the receive completes *)
| LClose (l : listener)               (* a deferred l.Close() runs *)
| LServe (l : listener)               (* line 72 *)
| LWatchEvent (ev : fsnotify.Event)   (* line 83 *)
| LWatchError (e : error)             (* line 88 *)
| LSendFile (name : string)           (* line 86, the send completes *).

Record state := {
  ws : Server;
  main : main_pc;
  coord : coord_pc;
  watch : watch_pc;
  serving : list serve_pc;
  log : list string;     (* the lines written by log.Println, oldest first *)
  trace : list label     (* newest first *)
}.

(** *** Field updates *)

Definition set_ReloadFile (b : list string) (w : Server) : Server :=
  {| ReloadFile := b; reloadFunc := reloadFunc w; reloadServe := reloadServe w;
     Addr := Addr w; Handler := Handler w |}.

Definition set_reloadServe (b : list unit) (w : Server) : Server :=
  {| ReloadFile := ReloadFile w; reloadFunc := reloadFunc w; reloadServe := b;
     Addr := Addr w; Handler := Handler w |}.

(** [func (ws *Server) Handler(handler http.Handler)], line 27. *)
Definition Server_Handler (h : http_Handler) (w : Server) : Server :=
  {| ReloadFile := ReloadFile w; reloadFunc := reloadFunc w;
     reloadServe := reloadServe w; Addr := Addr w; Handler := h |}.

(** Lines 36-37. *)
Definition set_args (a : string) (f : cb) (w : Server) : Server :=
  {| ReloadFile := ReloadFile w; reloadFunc := Some f;
     reloadServe := reloadServe w; Addr := a; Handler := Handler w |}.

Definition with_main (w : Server) (m : main_pc) (l : label) (s : state) : state :=
  {| ws := w; main := m; coord := coord s; watch := watch s;
     serving := serving s; log := log s; trace := l :: trace s |}.

Definition with_coord (w : Server) (c : coord_pc) (l : label) (s : state) : state :=
  {| ws := w; main := main s; coord := c; watch := watch s;
     serving := serving s; log := log s; trace := l :: trace s |}.

Definition with_watch (w : Server) (p : watch_pc) (lg : list string) (l : label)
    (s : state) : state :=
  {| ws := w; main := main s; coord := coord s; watch := p;
     serving := serving s; log := log s ++ lg; trace := l :: trace s |}.

(** ** The code *)

(** One step of the callback on the server: what is left of it, the server
    and the label; [None] while it blocks on an empty [ReloadFile].
    [CbRet] has no step of its own: the caller takes the return. *)
Definition cb_step (t : tid) (k : cb) (w : Server) : option (cb * Server * label) :=
  match k with
  | CbRet => None
  | CbRecv k' =>
      match chan_recv (ReloadFile w) with
      | Some (v, rest) => Some (k' v, set_ReloadFile rest w, LRecvFile t v)
      | None => None
      end
  | CbInstall h k' => Some (k', Server_Handler h w, LInstall t h)
  end.

(** Lines 59-62 of [listenAndServe]. *)
Definition listen_addr (a : string) : string :=
  if String.eqb a "" then ":http" else a.

(** The test of line 84, [event.Op&fsnotify.Write == fsnotify.Write]. *)
Definition is_write (ev : fsnotify.Event) : bool :=
  Z.eqb (Z.land (fsnotify.Op ev) fsnotify.Write) fsnotify.Write.

(** The deferred calls of a frame run when the function returns, last
    deferred first. *)
Definition run_defers (ds : list listener) : list label := rev (map LClose ds).

Inductive action :=
| AMain                             (* the caller of ListenAndServe moves *)
| ACoord                            (* the goroutine of lines 40-47 moves *)
| AWatchEvent (ev : fsnotify.Event) (* watchFile takes [ev] from watcher.Events *)
| AWatchError (e : error)           (* watchFile takes [e] from watcher.Errors *)
| AWatchSend                        (* watchFile completes the send of line 86 *)
| AServe (i : nat)                  (* the i-th serve goroutine moves *).

Section Semantics.

Variable W : World.
(** The arguments of [ListenAndServe]. *)
Variable address : string.
Variable f : cb.

(** [ListenAndServe], lines 35-51, as run by its caller up to the call of
    line 50. *)
Definition ListenAndServe (s : state) : option state :=
  match main s with
  | MStart =>
      (* lines 36-47: the assignments and the go statement *)
      Some {| ws := set_args address f (ws s); main := MCall; coord := CClear;
              watch := watch s; serving := serving s; log := log s;
              trace := LGo :: trace s |}
  | MCall =>
      match reloadFunc (ws s) with
      | Some k => Some (with_main (ws s) (MReload k) (LInvoke TMain) s)
      | None => None   (* a nil func: the call panics *)
      end
  | MReload CbRet => Some (with_main (ws s) MListen (LReturn TMain) s)
  | MReload k =>
      match cb_step TMain k (ws s) with
      | Some (k', w, l) => Some (with_main w (MReload k') l s)
      | None => None
      end
  | _ => None
  end.

(** [listenAndServe], lines 58-76. *)
Definition listenAndServe (s : state) : option state :=
  match main s with
  | MListen =>
      let addr := listen_addr (Addr (ws s)) in
      match net_Listen W addr with
      | inl err =>
          (* return err: the deferred calls run, none is registered yet *)
          Some {| ws := ws s; main := MReturned err; coord := coord s;
                  watch := watch s; serving := serving s; log := log s;
                  trace := run_defers [] ++ LListen addr (inl err) :: trace s |}
      | inr ln =>
          Some (with_main (ws s)
                  (MLoop {| f_addr := addr; f_ln := ln; f_defers := [] |})
                  (LListen addr (inr ln)) s)
      end
  | MLoop fr =>
      (* lines 68-73: l := ln; defer l.Close(); go func(l) {...}(l) *)
      let l := f_ln fr in
      Some {| ws := ws s;
              main := MWait {| f_addr := f_addr fr; f_ln := f_ln fr;
                               f_defers := l :: f_defers fr |};
              coord := coord s; watch := watch s;
              serving := serving s ++ [SStart (f_addr fr) l];
              log := log s;
              trace := LSpawn l (Handler (ws s)) :: trace s |}
  | MWait fr =>
      match chan_recv (reloadServe (ws s)) with
      | Some (_, rest) =>
          Some (with_main (set_reloadServe rest (ws s)) (MLoop fr) LResume s)
      | None => None
      end
  | _ => None
  end.

(** The caller: [ListenAndServe], then [listenAndServe] (line 50). *)
Definition step_main (s : state) : option state :=
  match main s with
  | MStart | MCall | MReload _ => ListenAndServe s
  | MListen | MLoop _ | MWait _ => listenAndServe s
  | MReturned _ => None
  end.

(** The function literal of lines 40-47, run as a goroutine. *)
Definition ListenAndServe_func1 (s : state) : option state :=
  match coord s with
  | CNotStarted => None
  | CClear => Some (with_coord (Server_Handler None (ws s)) CCall LClear s)
  | CCall =>
      match reloadFunc (ws s) with
      | Some k => Some (with_coord (ws s) (CReload k) (LInvoke TCoord) s)
      | None => None
      end
  | CReload CbRet => Some (with_coord (ws s) CSend (LReturn TCoord) s)
  | CReload k =>
      match cb_step TCoord k (ws s) with
      | Some (k', w, l) => Some (with_coord w (CReload k') l s)
      | None => None
      end
  | CSend =>
      match chan_send cap_reloadServe tt (reloadServe (ws s)) with
      | Some b => Some (with_coord (set_reloadServe b (ws s)) CClear LSignal s)
      | None => None
      end
  end.

(** [watchFile], lines 80-92. *)
Definition watchFile_event (ev : fsnotify.Event) (s : state) : option state :=
  match watch s with
  | WSelect =>
      if is_write ev
      then Some (with_watch (ws s) (WSend (fsnotify.Name ev))
                   ["Reloading the file..."] (LWatchEvent ev) s)
      else Some (with_watch (ws s) WSelect [] (LWatchEvent ev) s)
  | WSend _ => None
  end.

Definition watchFile_error (e : error) (s : state) : option state :=
  match watch s with
  | WSelect =>
      Some (with_watch (ws s) WSelect [("Watcher Error: " ++ e)%string] (LWatchError e) s)
  | WSend _ => None
  end.

Definition watchFile_send (s : state) : option state :=
  match watch s with
  | WSelect => None
  | WSend name =>
      match chan_send cap_ReloadFile name (ReloadFile (ws s)) with
      | Some b =>
          Some (with_watch (set_ReloadFile b (ws s)) WSelect [] (LSendFile name) s)
      | None => None
      end
  end.

(** A serve goroutine, lines 71-72: the log line, then [ws.Serve(l)],
    which belongs to [net/http] and from which it does not come back. *)
Definition listenAndServe_func1 (i : nat) (s : state) : option state :=
  match nth_error (serving s) i with
  | Some (SStart addr l) =>
      Some {| ws := ws s; main := main s; coord := coord s; watch := watch s;
              serving := firstn i (serving s) ++ SServe l :: skipn (S i) (serving s);
              log := log s ++ [("Listening and serving " ++ addr ++ " ...")%string];
              trace := LServe l :: trace s |}
  | _ => None
  end.

Definition step (a : action) (s : state) : option state :=
  match a with
  | AMain => step_main s
  | ACoord => ListenAndServe_func1 s
  | AWatchEvent ev => watchFile_event ev s
  | AWatchError e => watchFile_error e s
  | AWatchSend => watchFile_send s
  | AServe i => listenAndServe_func1 i s
  end.

(** A schedule, run from [s]; [None] when one of its actions is not
    enabled. *)
Fixpoint run (acts : list action) (s : state) : option state :=
  match acts with
  | [] => Some s
  | a :: acts' =>
      match step a s with
      | Some s' => run acts' s'
      | None => None
      end
  end.

(** [New], lines 97-116.  [log.Fatal] ends the process. *)
Inductive New_result :=
| Fatal (msg : string)
| Blocked
| Returned (s : state).

Definition New (filename : string) : New_result :=
  match NewWatcher_err W with
  | Some err => Fatal ("Watcher: " ++ err)%string
  | None =>
      match Add_err W filename with
      | Some err => Fatal ("New WatcherServer: " ++ err)%string
      | None =>
          match chan_send cap_ReloadFile filename [] with
          | Some b =>
              Returned
                {| ws := {| ReloadFile := b; reloadFunc := None;
                            reloadServe := []; Addr := ""; Handler := None |};
                   main := MStart; coord := CNotStarted; watch := WSelect;
                   serving := []; log := []; trace := [LPreload filename] |}
          | None => Blocked
          end
      end
  end.

(** The states the program reaches after [New(filename)] has returned. *)
Definition reaches (filename : string) (acts : list action) (s : state) : Prop :=
  exists s0, New filename = Returned s0 /\ run acts s0 = Some s.

End Semantics.

(** ** Reading traces *)

Fixpoint count (p : label -> bool) (tr : list label) : nat :=
  match tr with
  | [] => 0
  | l :: tr' => (if p l then 1 else 0) + count p tr'
  end.

Definition tid_eqb (t u : tid) : bool :=
  match t, u with
  | TMain, TMain | TCoord, TCoord => true
  | _, _ => false
  end.

Definition is_invoke (t : tid) (l : label) : bool :=
  match l with LInvoke u => tid_eqb t u | _ => false end.
Definition is_return (t : tid) (l : label) : bool :=
  match l with LReturn u => tid_eqb t u | _ => false end.
Definition is_any_invoke (l : label) : bool :=
  match l with LInvoke _ => true | _ => false end.
Definition is_clear (l : label) : bool :=
  match l with LClear => true | _ => false end.
Definition is_signal (l : label) : bool :=
  match l with LSignal => true | _ => false end.
Definition is_resume (l : label) : bool :=
  match l with LResume => true | _ => false end.
Definition is_listen (l : label) : bool :=
  match l with LListen _ _ => true | _ => false end.
Definition is_spawn (l : label) : bool :=
  match l with LSpawn _ _ => true | _ => false end.
Definition is_close (l : label) : bool :=
  match l with LClose _ => true | _ => false end.

(** The names [watchFile] has put on [ReloadFile], those received from it,
    and those [watchFile] has taken as write events; newest first, like the
    trace. *)
Fixpoint sent (tr : list label) : list string :=
  match tr with
  | [] => []
  | LSendFile n :: tr' => n :: sent tr'
  | _ :: tr' => sent tr'
  end.

Fixpoint received (tr : list label) : list string :=
  match tr with
  | [] => []
  | LRecvFile _ n :: tr' => n :: received tr'
  | _ :: tr' => received tr'
  end.

Fixpoint taken (tr : list label) : list string :=
  match tr with
  | [] => []
  | LWatchEvent ev :: tr' =>
      if is_write ev then fsnotify.Name ev :: taken tr' else taken tr'
  | _ :: tr' => taken tr'
  end.

(** What [watchFile] holds while it is blocked in the send of line 86. *)
Definition pending (p : watch_pc) : list string :=
  match p with
  | WSelect => []
  | WSend n => [n]
  end.

(** The coordinator's own steps of lines 43-45. *)
Definition coord_event (l : label) : bool :=
  match l with
  | LClear | LInvoke TCoord | LReturn TCoord | LSignal => true
  | _ => false
  end.

(** One iteration of the loop of lines 41-46. *)
Definition cycle : list label := [LClear; LInvoke TCoord; LReturn TCoord; LSignal].

(** How far into the current iteration the coordinator is. *)
Definition coord_progress (c : coord_pc) : nat :=
  match c with
  | CNotStarted | CClear => 0
  | CCall => 1
  | CReload _ => 2
  | CSend => 3
  end.

(** The handler the trace leaves behind: what the latest [ws.Handler] call
    of line 43 or of a callback has set, nil when there is none. *)
Fixpoint last_handler (tr : list label) : http_Handler :=
  match tr with
  | [] => None
  | LClear :: _ => None
  | LInstall _ h :: _ => h
  | _ :: tr' => last_handler tr'
  end.

Definition is_serve (l : label) : bool :=
  match l with LServe _ => true | _ => false end.

(** The lines a step writes with [log.Println]: lines 85, 89 and 71, the
    last for the address [addr] bound by [listenAndServe]. *)
Definition log_line (addr : string) (l : label) : list string :=
  match l with
  | LWatchEvent ev => if is_write ev then ["Reloading the file..."] else []
  | LWatchError e => [("Watcher Error: " ++ e)%string]
  | LServe _ => [("Listening and serving " ++ addr ++ " ...")%string]
  | _ => []
  end.

(** The listener a serve goroutine was given, and whether it has reached
    [ws.Serve(l)]. *)
Definition serve_listener (p : serve_pc) : listener :=
  match p with
  | SStart _ l | SServe l => l
  end.

Definition serve_started (p : serve_pc) : bool :=
  match p with
  | SStart _ _ => false
  | SServe _ => true
  end.

(** *** Callbacks that do not wait

    Whether a callback receives from [ReloadFile] on the way it takes when
    it does not, how many [ws.Handler] calls it then makes, and the handler
    it leaves, from [h0]. *)
Fixpoint cb_waits (k : cb) : bool :=
  match k with
  | CbRet => false
  | CbRecv _ => true
  | CbInstall _ k' => cb_waits k'
  end.

Fixpoint cb_size (k : cb) : nat :=
  match k with
  | CbInstall _ k' => S (cb_size k')
  | _ => 0
  end.

Fixpoint cb_handler (k : cb) (h0 : http_Handler) : http_Handler :=
  match k with
  | CbInstall h k' => cb_handler k' h
  | _ => h0
  end.

(** The schedule in which everything happens in turn: the caller runs
    [ListenAndServe] up to its first serve cycle before the coordinator
    moves; then, [n] times, the coordinator runs one iteration and the
    accept loop takes its signal and spawns a serve cycle. *)
Definition startup_of (f : cb) : list action :=
  [AMain; AMain] ++ repeat AMain (cb_size f) ++ [AMain; AMain; AMain].

Definition cycle_of (f : cb) : list action :=
  [ACoord; ACoord] ++ repeat ACoord (cb_size f) ++ [ACoord; ACoord; AMain; AMain].

Fixpoint cycles_of (f : cb) (n : nat) : list action :=
  match n with
  | 0 => []
  | S n' => cycles_of f n' ++ cycle_of f
  end.

(** The state between two reload cycles taken in turn. *)
Definition between_cycles (f : cb) (l : listener) (n : nat) (s : state) : Prop :=
  (exists fr, main s = MWait fr /\ f_ln fr = l) /\
  coord s = CClear /\ reloadServe (ws s) = [] /\
  reloadFunc (ws s) = Some f /\
  count is_spawn (trace s) = S n /\ count is_listen (trace s) = 1 /\
  exists tr', trace s = LSpawn l (cb_handler f None) :: tr'.

(** ** The claims as the specification words them, where the code differs *)

(** The coordinator is between clearing the handler and the return of the
    callback. *)
Definition rebuilding (c : coord_pc) : bool :=
  match c with
  | CCall | CReload _ => true
  | _ => false
  end.

(** C2 as stated: no serve cycle is started against a handler that is
    cleared or under construction. *)
Definition serve_cycles_see_built_handler W address f filename : Prop :=
  forall acts s l h tr',
    reaches W address f filename acts s ->
    trace s = LSpawn l h :: tr' ->
    rebuilding (coord s) = false.

(** C4 as stated: exactly one invocation of the callback precedes the first
    serve cycle. *)
Definition one_invocation_before_serving W address f filename : Prop :=
  forall acts s post l h pre,
    reaches W address f filename acts s ->
    trace s = post ++ LSpawn l h :: pre ->
    count is_spawn pre = 0 ->
    count is_any_invoke pre = 1.

Definition no_watch_event (a : action) : bool :=
  match a with
  | AWatchEvent _ => false
  | _ => true
  end.

(** C5 as stated: a write event taken while [ReloadFile] holds an unconsumed
    name never reaches the channel. *)
Definition second_change_dropped W address f filename : Prop :=
  forall acts s ev acts' s',
    reaches W address f filename acts s ->
    ReloadFile (ws s) <> [] ->
    is_write ev = true ->
    forallb no_watch_event acts' = true ->
    run W address f (AWatchEvent ev :: acts') s = Some s' ->
    sent (trace s') = sent (trace s).

(** C6 as stated: the send of line 45 completes only in a handshake with the
    receive of line 74, leaving nothing behind in the channel. *)
Definition signal_is_handshake W address f filename : Prop :=
  forall acts s s',
    reaches W address f filename acts s ->
    coord s = CSend ->
    step W address f ACoord s = Some s' ->
    (exists fr, main s = MWait fr) /\ reloadServe (ws s') = [].

(** ** A concrete program

    [ws := New("/tmp/h.conf"); ws.ListenAndServe("127.0.0.1:0", rebuild)]
    where [rebuild] waits on [ws.ReloadFile] and installs a handler made
    from what it received. *)
Module Demo.

Definition W_ok : World :=
  {| NewWatcher_err := None; Add_err := fun _ => None;
     net_Listen := fun _ => inr 7 |}.

Definition W_busy : World :=
  {| NewWatcher_err := None; Add_err := fun _ => None;
     net_Listen := fun _ => inl "bind: address already in use" |}.

Definition path : string := "/tmp/h.conf".
Definition address : string := "127.0.0.1:0".

Definition rebuild : cb :=
  CbRecv (fun name => CbInstall (Some (String.length name)) CbRet).

(** The state in which [New(path)] returns. *)
Definition s_new : state :=
  {| ws := {| ReloadFile := [path]; reloadFunc := None; reloadServe := [];
              Addr := ""; Handler := None |};
     main := MStart; coord := CNotStarted; watch := WSelect;
     serving := []; log := []; trace := [LPreload path] |}.

(** A callback that does not wait for a change. *)
Definition eager : cb := CbInstall (Some 1) CbRet.

Definition write_of (name : string) : fsnotify.Event :=
  {| fsnotify.Name := name; fsnotify.Op := fsnotify.Write |}.

End Demo.

(** ** Schedules of the concrete program *)

Module Run.
Import Demo.

(** The state a schedule leads to from [s_new], for [rebuild]. *)
Definition final (W : World) (a : string) (acts : list action) : state :=
  match run W a rebuild acts s_new with
  | Some s => s
  | None => s_new
  end.

(** The caller builds the first handler, binds and starts the first serve
    cycle. *)
Definition startup : list action :=
  [AMain; AMain; AMain; AMain; AMain; AMain; AMain].

(** After [startup]: [a] and [b] are written while the coordinator is in
    its first iteration; it rebuilds for [a], signals, and is rebuilding for
    [b] when the accept loop resumes and spawns the second serve cycle. *)
Definition two_changes : list action :=
  startup ++
  [ACoord; ACoord;
   AWatchEvent (write_of "a"); AWatchSend; AWatchEvent (write_of "b");
   ACoord; AWatchSend; ACoord; ACoord; ACoord;
   ACoord; ACoord; ACoord;
   AMain; AMain].

(** After [startup], [a] is written and sits in [ReloadFile]. *)
Definition first_change : list action :=
  startup ++ [ACoord; ACoord; AWatchEvent (write_of "a"); AWatchSend].

(** The coordinator rebuilds for the pending name, [watchFile] completes its
    send, the coordinator signals and rebuilds again. *)
Definition coordinator_catches_up : list action :=
  [ACoord; AWatchSend; ACoord; ACoord; ACoord; ACoord; ACoord; ACoord].

(** The coordinator runs its first iteration up to the send of line 45
    before the caller has called the callback. *)
Definition coordinator_ready : list action :=
  [AMain; ACoord; ACoord; ACoord; ACoord; ACoord].

(** The caller builds the first handler and tries to bind. *)
Definition to_bind : list action :=
  [AMain; AMain; AMain; AMain; AMain; AMain].

(** The coordinator's first invocation comes before the caller's, which
    gets the preloaded name. *)
Definition both_invoke : list action :=
  [AMain; ACoord; ACoord; AMain; AMain; AMain; AMain; AMain; AMain].

(** Where these schedules lead. *)
Definition reloaded : state := final W_ok address two_changes.
Definition raced : state := final W_ok address both_invoke.
Definition queued : state := final W_ok address first_change.

(** [b] is written while [a] is still in [ReloadFile]. *)
Definition held : state :=
  final W_ok address (first_change ++ [AWatchEvent (write_of "b")]).

(** The coordinator is at its first send, the caller has not moved since
    line 47. *)
Definition ready : state := final W_ok address coordinator_ready.

(** The held [b] is delivered after [a] has been received. *)
Definition delivered : state :=
  final W_ok address
    (first_change ++ AWatchEvent (write_of "b") :: coordinator_catches_up).

(** The coordinator has completed its first send. *)
Definition signalled : state :=
  final W_ok address (coordinator_ready ++ [ACoord]).

(** The caller has tried to bind the default address, which is taken. *)
Definition refused : state := final W_busy "" to_bind.

(** With the callback [eager]: the caller's start, and one iteration of the
    coordinator followed by the accept loop's resumption and spawn. *)
Definition eager_startup : list action :=
  [AMain; AMain; AMain; AMain; AMain; AMain].

Definition one_cycle : list action :=
  [ACoord; ACoord; ACoord; ACoord; ACoord; AMain; AMain].

Fixpoint cycles (n : nat) : list action :=
  match n with
  | 0 => []
  | S n' => cycles n' ++ one_cycle
  end.

(** The coordinator takes the preloaded name before the caller has called
    the callback; the caller then calls it. *)
Definition coordinator_takes_path : list action :=
  [AMain; ACoord; ACoord; ACoord; AMain].

Definition starved : state := final W_ok address coordinator_takes_path.

(** From [starved], the coordinator goes on to its second invocation. *)
Definition coordinator_goes_on : list action :=
  [ACoord; ACoord; ACoord; ACoord; ACoord].

Definition ahead : state :=
  final W_ok address (coordinator_takes_path ++ coordinator_goes_on).

(** [two_changes], then the two serve goroutines write their log lines. *)
Definition two_served : list action :=
  two_changes ++ [AServe 1; AServe 0].

Definition served : state := final W_ok address two_served.

End Run.

(** ** Invariants *)

(** Case analysis on a step [H : step _ _ _ a s = Some s']: every test of
    the code on the way to [s'] is destructed, innermost first. *)
Ltac step_inv H :=
  unfold step, step_main, ListenAndServe, listenAndServe, ListenAndServe_func1,
    watchFile_event, watchFile_error, watchFile_send, listenAndServe_func1,
    cb_step, chan_send, chan_recv in H;
  simpl in H;
  repeat match type of H with
    | context [match ?x with _ => _ end] =>
        lazymatch x with
        | context [match _ with _ => _ end] => fail
        | _ => destruct x eqn:?; try discriminate H; simpl in H
        end
    end;
  inversion H; subst; clear H.

Section Invariants.

Variable W : World.
Variable address : string.
Variable f : cb.
Variable filename : string.

(** *** Where each goroutine is, against what the trace has seen

    For each program point of the caller and of the coordinator, how many
    of its own steps the trace holds; for [reloadServe], sends against
    receives. *)

Definition main_counts (s : state) : Prop :=
  let tr := trace s in
  let iM := count (is_invoke TMain) tr in
  let rM := count (is_return TMain) tr in
  let nL := count is_listen tr in
  let nS := count is_spawn tr in
  let nR := count is_resume tr in
  match main s with
  | MStart => coord s = CNotStarted /\ iM = 0 /\ rM = 0 /\ nL = 0 /\ nS = 0 /\ nR = 0
  | MCall => iM = 0 /\ rM = 0 /\ nL = 0 /\ nS = 0 /\ nR = 0
  | MReload _ => iM = 1 /\ rM = 0 /\ nL = 0 /\ nS = 0 /\ nR = 0
  | MListen => iM = 1 /\ rM = 1 /\ nL = 0 /\ nS = 0 /\ nR = 0
  | MLoop _ => iM = 1 /\ rM = 1 /\ nL = 1 /\ nS = nR
  | MWait _ => iM = 1 /\ rM = 1 /\ nL = 1 /\ nS = nR + 1
  | MReturned _ => iM = 1 /\ rM = 1 /\ nL = 1 /\ nS = 0 /\ nR = 0
  end.

Definition coord_counts (s : state) : Prop :=
  let tr := trace s in
  let nC := count is_clear tr in
  let iC := count (is_invoke TCoord) tr in
  let rC := count (is_return TCoord) tr in
  let nG := count is_signal tr in
  match coord s with
  | CNotStarted => main s = MStart /\ nC = 0 /\ iC = 0 /\ rC = 0 /\ nG = 0
  | CClear => nC = nG /\ iC = nG /\ rC = nG
  | CCall => nC = nG + 1 /\ iC = nG /\ rC = nG
  | CReload _ => nC = nG + 1 /\ iC = nG + 1 /\ rC = nG
  | CSend => nC = nG + 1 /\ iC = nG + 1 /\ rC = nG + 1
  end.

Definition signal_counts (s : state) : Prop :=
  count is_signal (trace s) =
    count is_resume (trace s) + List.length (reloadServe (ws s))
  /\ List.length (reloadServe (ws s)) <= 1.

Definition counts_inv (s : state) : Prop :=
  main_counts s /\ coord_counts s /\ signal_counts s /\
  count is_close (trace s) = 0.

(** *** The listener

    [net.Listen] is only called with the effective address, and the frame of
    [listenAndServe] holds what it returned. *)

Definition bound (fr : frame) (tr : list label) : Prop :=
  f_addr fr = listen_addr address /\
  net_Listen W (listen_addr address) = inr (f_ln fr) /\
  In (LListen (listen_addr address) (inr (f_ln fr))) tr.

Definition listen_inv (s : state) : Prop :=
  let tr := trace s in
  (main s <> MStart -> Addr (ws s) = address /\ reloadFunc (ws s) = Some f) /\
  (forall a r, In (LListen a r) tr ->
     a = listen_addr address /\ r = net_Listen W a) /\
  (forall l h, In (LSpawn l h) tr ->
     net_Listen W (listen_addr address) = inr l) /\
  match main s with
  | MLoop fr | MWait fr => bound fr tr
  | MReturned e => In (LListen (listen_addr address) (inl e)) tr
  | _ => True
  end.

(** *** The reload signal channel

    [ReloadFile] is a queue between [watchFile] and the callbacks that
    loses nothing. *)

Definition file_inv (s : state) : Prop :=
  filename :: rev (sent (trace s)) =
    rev (received (trace s)) ++ ReloadFile (ws s) /\
  rev (taken (trace s)) = rev (sent (trace s)) ++ pending (watch s) /\
  List.length (ReloadFile (ws s)) <= 1.

(** *** The order of the coordinator's steps *)

Definition order_inv (s : state) : Prop :=
  (exists n,
     rev (filter coord_event (trace s)) =
     List.concat (repeat cycle n) ++ firstn (coord_progress (coord s)) cycle) /\
  (forall tr', trace s = LClear :: tr' -> Handler (ws s) = None) /\
  (main s = MStart -> coord s = CNotStarted).

(** *** The frame of [listenAndServe] and the serve goroutines

    One deferred [l.Close()] and one goroutine per serve cycle, all for the
    one listener. *)

Definition defer_inv (s : state) : Prop :=
  match main s with
  | MLoop fr | MWait fr =>
      f_defers fr = repeat (f_ln fr) (count is_spawn (trace s))
  | MReturned _ => True
  | _ => count is_spawn (trace s) = 0
  end.

Definition serve_ok (p : serve_pc) : Prop :=
  net_Listen W (listen_addr address) = inr (serve_listener p) /\
  match p with
  | SStart a _ => a = listen_addr address
  | SServe _ => True
  end.

Definition serve_inv (s : state) : Prop :=
  List.length (serving s) = count is_spawn (trace s) /\
  List.length (filter serve_started (serving s)) = count is_serve (trace s) /\
  Forall serve_ok (serving s) /\
  log s = flat_map (log_line (listen_addr address)) (rev (trace s)).

(** *** The handler *)

Definition handler_inv (s : state) : Prop :=
  Handler (ws s) = last_handler (trace s).

(** *** Runs *)

Lemma run_invariant (P : state -> Prop) :
  (forall a s s', P s -> step W address f a s = Some s' -> P s') ->
  forall acts s s', P s -> run W address f acts s = Some s' -> P s'.
Proof.
  intros Hstep acts; induction acts as [|a acts IH]; intros s s' HP Hrun.
  - simpl in Hrun. injection Hrun as <-. exact HP.
  - simpl in Hrun. destruct (step W address f a s) as [s1|] eqn:E; [|discriminate].
    eapply IH; [eapply Hstep; eassumption | exact Hrun].
Qed.

Lemma run_app acts1 acts2 s :
  run W address f (acts1 ++ acts2) s =
  match run W address f acts1 s with
  | Some s1 => run W address f acts2 s1
  | None => None
  end.
Proof.
  revert s; induction acts1 as [|a acts1 IH]; intros s; simpl; [reflexivity|].
  destruct (step W address f a s); [apply IH | reflexivity].
Qed.

Lemma New_Returned s0 :
  New W filename = Returned s0 ->
  s0 = {| ws := {| ReloadFile := [filename]; reloadFunc := None;
                   reloadServe := []; Addr := ""; Handler := None |};
          main := MStart; coord := CNotStarted; watch := WSelect;
          serving := []; log := []; trace := [LPreload filename] |}.
Proof.
  unfold New. destruct (NewWatcher_err W); [discriminate|].
  destruct (Add_err W filename); [discriminate|].
  simpl. intros H; injection H as <-. reflexivity.
Qed.

(** *** Where each goroutine is *)

Lemma counts_inv_step a s s' :
  counts_inv s -> step W address f a s = Some s' -> counts_inv s'.
Proof.
  unfold counts_inv, main_counts, coord_counts, signal_counts.
  destruct s as [[rf fn rs ad hd] m c wp sv lg tr]; simpl.
  intros (Hm & Hc & (Hs & Hl) & Hx) H.
  destruct m, c, a; step_inv H; simpl in *;
    rewrite ?length_app in *; simpl in *;
    try (apply Nat.ltb_lt in Heqb; unfold cap_reloadServe in Heqb);
    intuition (try discriminate; try lia).
Qed.

Lemma counts_inv_reaches acts s :
  reaches W address f filename acts s -> counts_inv s.
Proof.
  intros (s0 & HN & Hrun).
  eapply run_invariant; [apply counts_inv_step | | exact Hrun].
  rewrite (New_Returned _ HN).
  unfold counts_inv, main_counts, coord_counts, signal_counts; simpl.
  repeat split; lia.
Qed.

(** *** The listener *)

Lemma listen_inv_step a s s' :
  listen_inv s -> step W address f a s = Some s' -> listen_inv s'.
Proof.
  unfold listen_inv, bound.
  destruct s as [[rf fn rs ad hd] m c wp sv lg tr]; simpl.
  intros (Ha & Hl & Hs & Hm) H.
  destruct m, a; step_inv H; simpl in *;
    try (destruct Ha as [-> ->]; [discriminate|]);
    repeat match goal with
      | |- _ /\ _ => split
      | |- _ -> _ => intro
      | H : _ \/ _ |- _ => destruct H
      | H : _ /\ _ |- _ => destruct H
      | H : LListen _ _ = LListen _ _ |- _ => injection H as <- <-
      | H : LSpawn _ _ = LSpawn _ _ |- _ => injection H as <- <-
      | H : _ = _ |- _ => discriminate H
      end;
    subst; eauto; try congruence;
    match goal with
    | H : In (LListen _ _) _ |- _ =>
        first [apply (proj1 (Hl _ _ H)) | apply (proj2 (Hl _ _ H))]
    end.
Qed.

Lemma listen_inv_reaches acts s :
  reaches W address f filename acts s -> listen_inv s.
Proof.
  intros (s0 & HN & Hrun).
  eapply run_invariant; [apply listen_inv_step | | exact Hrun].
  rewrite (New_Returned _ HN). unfold listen_inv; simpl.
  repeat split; try congruence; intros; intuition discriminate.
Qed.

(** *** The reload signal channel *)

Lemma file_inv_step a s s' :
  file_inv s -> step W address f a s = Some s' -> file_inv s'.
Proof.
  unfold file_inv.
  destruct s as [[rf fn rs ad hd] m c wp sv lg tr]; simpl.
  intros (Hq & Hp & Hl) H.
  destruct a; step_inv H; simpl in *;
    rewrite ?Heqb; simpl;
    rewrite ?length_app in *; simpl in *;
    try (apply Nat.ltb_lt in Heqb; unfold cap_ReloadFile in Heqb);
    rewrite ?app_nil_r in *;
    repeat split; auto; try lia.
  all: try (rewrite Hq, <- app_assoc; reflexivity).
  all: try (rewrite Hp; reflexivity).
  all: try (rewrite app_assoc, <- Hq; reflexivity).
Qed.

Lemma file_inv_reaches acts s :
  reaches W address f filename acts s -> file_inv s.
Proof.
  intros (s0 & HN & Hrun).
  eapply run_invariant; [apply file_inv_step | | exact Hrun].
  rewrite (New_Returned _ HN). unfold file_inv; simpl. auto.
Qed.

(** *** The coordinator's loop *)

Lemma concat_repeat_snoc {A} (c : list A) n :
  List.concat (repeat c n) ++ c = List.concat (repeat c (S n)).
Proof.
  induction n as [|n IH]; simpl.
  - rewrite app_nil_r. reflexivity.
  - rewrite <- app_assoc, IH. reflexivity.
Qed.

Lemma order_inv_step a s s' :
  order_inv s -> step W address f a s = Some s' -> order_inv s'.
Proof.
  unfold order_inv.
  destruct s as [[rf fn rs ad hd] m c wp sv lg tr]; simpl.
  intros ((n & Hn) & Hc & Hm) H.
  destruct c, a; step_inv H; simpl in *;
    try (discriminate (Hm eq_refl));
    (split; [| split; [intros tr' Htr; try discriminate Htr; auto
                      | intros Hs; try discriminate Hs;
                        try discriminate (Hm Hs); auto]]);
    try (exists n; rewrite Hn; rewrite <- ?app_assoc; reflexivity).
  exists (S n). rewrite Hn, <- app_assoc. simpl.
  rewrite app_nil_r. apply (concat_repeat_snoc cycle n).
Qed.

Lemma order_inv_reaches acts s :
  reaches W address f filename acts s -> order_inv s.
Proof.
  intros (s0 & HN & Hrun).
  eapply run_invariant; [apply order_inv_step | | exact Hrun].
  rewrite (New_Returned _ HN). unfold order_inv; simpl.
  split; [exists 0; reflexivity | split; [intros; discriminate | auto]].
Qed.

(** *** Histories *)

Lemma step_trace a s s' :
  step W address f a s = Some s' -> exists l, trace s' = l :: trace s.
Proof.
  destruct s as [[rf fn rs ad hd] m c wp sv lg tr].
  intros H. destruct a; step_inv H; simpl; eauto.
Qed.

(** Every label of a reachable trace but the first was put there by a step
    from a reachable state whose trace is what precedes it. *)
Lemma history acts s post l pre :
  reaches W address f filename acts s ->
  trace s = post ++ l :: pre ->
  (l = LPreload filename /\ pre = []) \/
  exists acts0 a s0 s1,
    reaches W address f filename acts0 s0 /\
    step W address f a s0 = Some s1 /\
    trace s0 = pre /\ trace s1 = l :: pre.
Proof.
  intros (si & HN & Hrun). revert s post Hrun.
  induction acts as [|a acts IH] using rev_ind; intros s post Hrun Htr.
  - simpl in Hrun. injection Hrun as <-.
    rewrite (New_Returned _ HN) in Htr. simpl in Htr.
    destruct post as [|p post]; simpl in Htr.
    + injection Htr as <- <-. left. auto.
    + injection Htr as _ Htr. destruct post; discriminate.
  - rewrite run_app in Hrun.
    destruct (run W address f acts si) as [sp|] eqn:Ep; [|discriminate].
    simpl in Hrun.
    destruct (step W address f a sp) as [s1|] eqn:Es; [|discriminate].
    injection Hrun as <-.
    destruct (step_trace _ _ _ Es) as (l0 & Hl0).
    rewrite Hl0 in Htr.
    destruct post as [|p post]; simpl in Htr.
    + injection Htr as -> <-. right.
      exists acts, a, sp, s1. repeat split; auto.
      exists si; auto.
    + injection Htr as _ Htr. exact (IH sp post eq_refl Htr).
Qed.

(** *** Which step writes which label *)

Lemma spawn_step a s s' l h :
  step W address f a s = Some s' -> trace s' = LSpawn l h :: trace s ->
  exists fr, main s = MLoop fr /\ l = f_ln fr /\ h = Handler (ws s).
Proof.
  destruct s as [[rf fn rs ad hd] m c wp sv lg tr].
  intros H Htr. destruct a; step_inv H; simpl in Htr; try discriminate Htr.
  injection Htr as <- <-. simpl. eauto.
Qed.

Lemma recv_step a s s' t n :
  step W address f a s = Some s' -> trace s' = LRecvFile t n :: trace s ->
  exists rest, ReloadFile (ws s) = n :: rest.
Proof.
  destruct s as [[rf fn rs ad hd] m c wp sv lg tr].
  intros H Htr. destruct a; step_inv H; simpl in Htr; try discriminate Htr;
    injection Htr as <- <-; simpl; eauto.
Qed.

Lemma spawn_history acts s post l h pre :
  reaches W address f filename acts s ->
  trace s = post ++ LSpawn l h :: pre ->
  exists acts0 s0 fr,
    reaches W address f filename acts0 s0 /\ trace s0 = pre /\
    main s0 = MLoop fr /\ l = f_ln fr /\ h = Handler (ws s0).
Proof.
  intros HR Htr.
  destruct (history _ _ _ _ _ HR Htr) as [(E & _)|(acts0 & a & s0 & s1 & HR0 & Hs & H0 & H1)].
  - discriminate E.
  - rewrite <- H0 in H1.
    destruct (spawn_step _ _ _ _ _ Hs H1) as (fr & Hm & Hl & Hh).
    exists acts0, s0, fr. auto.
Qed.

(** *** The frame of [listenAndServe] and the serve goroutines *)

Lemma defer_inv_step a s s' :
  defer_inv s -> step W address f a s = Some s' -> defer_inv s'.
Proof.
  unfold defer_inv.
  destruct s as [[rf fn rs ad hd] m c wp sv lg tr]; simpl.
  intros Hd H.
  destruct m, a; step_inv H; simpl in *; auto; try lia;
    try (rewrite Hd; reflexivity).
Qed.

Lemma defer_inv_reaches acts s :
  reaches W address f filename acts s -> defer_inv s.
Proof.
  intros (s0 & HN & Hrun).
  eapply run_invariant; [apply defer_inv_step | | exact Hrun].
  rewrite (New_Returned _ HN). reflexivity.
Qed.

Lemma update_nth_split {A} (l : list A) i x y :
  nth_error l i = Some x ->
  exists l1 l2,
    l = l1 ++ x :: l2 /\ firstn i l ++ y :: skipn (S i) l = l1 ++ y :: l2.
Proof.
  revert i. induction l as [|a l IH]; intros [|i] H; simpl in H;
    try discriminate H.
  - injection H as ->. exists [], l. split; reflexivity.
  - destruct (IH i H) as (l1 & l2 & E1 & E2).
    exists (a :: l1), l2. split.
    + simpl. rewrite <- E1. reflexivity.
    + change (a :: firstn i l ++ y :: skipn (S i) l = a :: l1 ++ y :: l2).
      rewrite E2. reflexivity.
Qed.

Lemma serve_inv_step a s s' :
  listen_inv s -> serve_inv s -> step W address f a s = Some s' -> serve_inv s'.
Proof.
  unfold listen_inv, bound, serve_inv.
  destruct s as [[rf fn rs ad hd] m c wp sv lg tr]; simpl.
  intros (_ & _ & _ & Hb) (Hn & Hst & Hok & Hlog) H.
  destruct a.
  - destruct m; step_inv H; simpl in *;
      rewrite ?flat_map_app, ?length_app, ?filter_app, ?app_nil_r; simpl;
      rewrite ?app_nil_r; repeat split; auto; try lia.
    apply Forall_app. split; [exact Hok|].
    constructor; [|constructor]. destruct Hb as (Ha & Hl & _).
    split; assumption.
  - step_inv H; simpl in *; rewrite ?flat_map_app; simpl;
      rewrite ?app_nil_r; repeat split; auto.
  - step_inv H; simpl in *; rewrite ?flat_map_app; simpl;
      rewrite ?Heqb, ?app_nil_r; repeat split; auto; congruence.
  - step_inv H; simpl in *; rewrite ?flat_map_app; simpl;
      repeat split; auto; congruence.
  - step_inv H; simpl in *; rewrite ?flat_map_app; simpl;
      rewrite ?app_nil_r; repeat split; auto.
  - unfold step, listenAndServe_func1 in H;
      cbn [serving ws main coord watch log trace] in H.
    destruct (nth_error sv i) as [[addr l|l]|] eqn:E; try discriminate H.
    destruct (update_nth_split sv i _ (SServe l) E) as (l1 & l2 & E1 & E2).
    rewrite E2 in H. injection H as <-. simpl. subst sv.
    rewrite Forall_app in Hok. destruct Hok as (Hok1 & Hok2).
    inversion Hok2 as [|? ? (Hl & Ha) Hok3]; subst.
    rewrite length_app in *. rewrite filter_app in *. simpl in *.
    rewrite length_app in *. simpl. rewrite flat_map_app. simpl.
    repeat split; try lia.
    apply Forall_app. split; [exact Hok1|].
    constructor; [split; [exact Hl | exact I] | exact Hok3].
Qed.

Lemma serve_inv_reaches acts s :
  reaches W address f filename acts s -> serve_inv s.
Proof.
  intros (s0 & HN & Hrun).
  apply (run_invariant (fun s => listen_inv s /\ serve_inv s))
    with (acts := acts) (s := s0); [| | exact Hrun].
  - intros a p p' (Hl & Hs) Hstep. split.
    + exact (listen_inv_step _ _ _ Hl Hstep).
    + exact (serve_inv_step _ _ _ Hl Hs Hstep).
  - split.
    + apply (listen_inv_reaches [] s0). exists s0. split; [exact HN | reflexivity].
    + rewrite (New_Returned _ HN). unfold serve_inv; simpl.
      repeat split; auto.
Qed.

(** *** The handler *)

Lemma handler_inv_step a s s' :
  handler_inv s -> step W address f a s = Some s' -> handler_inv s'.
Proof.
  unfold handler_inv.
  destruct s as [[rf fn rs ad hd] m c wp sv lg tr]; simpl.
  intros Hh H. destruct a; step_inv H; simpl; auto.
Qed.

Lemma handler_inv_reaches acts s :
  reaches W address f filename acts s -> handler_inv s.
Proof.
  intros (s0 & HN & Hrun).
  eapply run_invariant; [apply handler_inv_step | | exact Hrun].
  rewrite (New_Returned _ HN). reflexivity.
Qed.

End Invariants.

(** ** Counting lemmas *)

Lemma count_app p a b : count p (a ++ b) = count p a + count p b.
Proof.
  induction a as [|x a IH]; simpl; [reflexivity|]. rewrite IH. lia.
Qed.

Lemma count_In p l tr : In l tr -> p l = true -> 1 <= count p tr.
Proof.
  induction tr as [|x tr IH]; simpl; intros HI Hp; [contradiction|].
  destruct HI as [->|HI]; [rewrite Hp; lia|].
  specialize (IH HI Hp). lia.
Qed.

Lemma count_any_invoke tr :
  count is_any_invoke tr =
  count (is_invoke TMain) tr + count (is_invoke TCoord) tr.
Proof.
  induction tr as [|x tr IH]; simpl; [reflexivity|].
  rewrite IH. destruct x as [| |[]| | | | | | | | | | | | |]; simpl; lia.
Qed.

Lemma listen_once W address f filename acts s :
  reaches W address f filename acts s -> count is_listen (trace s) <= 1.
Proof.
  intros HR. destruct (counts_inv_reaches _ _ _ _ _ _ HR) as (Hm & _).
  unfold main_counts in Hm. destruct (main s); lia.
Qed.

(** The test of line 84 reads bit 1 of [Op]. *)
Lemma is_write_testbit ev : is_write ev = Z.testbit (fsnotify.Op ev) 1.
Proof.
  unfold is_write, fsnotify.Write. set (a := fsnotify.Op ev).
  change (Z.shiftl 1 1) with (2 ^ 1)%Z.
  destruct (Z.testbit a 1) eqn:E.
  - apply Z.eqb_eq. apply Z.bits_inj'. intros n Hn.
    rewrite Z.land_spec, Z.pow2_bits_eqb by lia.
    destruct (Z.eqb_spec 1 n) as [<-|]; [rewrite E; reflexivity|].
    apply andb_false_r.
  - apply Z.eqb_neq. intros H.
    assert (Hb : Z.testbit (Z.land a (2 ^ 1)) 1 = true)
      by (rewrite H; reflexivity).
    rewrite Z.land_spec, E in Hb. discriminate.
Qed.

(** ** Runs of the concrete program *)

Lemma two_changes_reaches :
  reaches Demo.W_ok Demo.address Demo.rebuild Demo.path Run.two_changes
    Run.reloaded.
Proof. exists Demo.s_new. split; [reflexivity | vm_compute; reflexivity]. Qed.

Lemma two_changes_last_spawn :
  trace Run.reloaded =
  [] ++ LSpawn 7 None :: tl (trace Run.reloaded).
Proof. vm_compute. reflexivity. Qed.

Lemma both_invoke_reaches :
  reaches Demo.W_ok Demo.address Demo.rebuild Demo.path Run.both_invoke
    Run.raced.
Proof. exists Demo.s_new. split; [reflexivity | vm_compute; reflexivity]. Qed.

Lemma both_invoke_first_spawn :
  trace Run.raced =
  [] ++ LSpawn 7 (Some 11) :: tl (trace Run.raced).
Proof. vm_compute. reflexivity. Qed.

Lemma first_change_reaches :
  reaches Demo.W_ok Demo.address Demo.rebuild Demo.path Run.first_change
    Run.queued.
Proof. exists Demo.s_new. split; [reflexivity | vm_compute; reflexivity]. Qed.

Lemma second_change_held :
  reaches Demo.W_ok Demo.address Demo.rebuild Demo.path
    (Run.first_change ++ [AWatchEvent (Demo.write_of "b")]) Run.held.
Proof. exists Demo.s_new. split; [reflexivity | vm_compute; reflexivity]. Qed.

Lemma coordinator_ready_reaches :
  reaches Demo.W_ok Demo.address Demo.rebuild Demo.path Run.coordinator_ready
    Run.ready.
Proof. exists Demo.s_new. split; [reflexivity | vm_compute; reflexivity]. Qed.

Lemma to_bind_refused :
  reaches Demo.W_busy "" Demo.rebuild Demo.path Run.to_bind Run.refused.
Proof. exists Demo.s_new. split; [reflexivity | vm_compute; reflexivity]. Qed.

(** With [eager], one iteration of the coordinator and its pick-up by the
    accept loop lead from a state of the loop to the next such state, with
    one more serve cycle and no further [net.Listen]. *)
Lemma one_cycle_runs W a s fr :
  main s = MWait fr -> coord s = CClear -> reloadServe (ws s) = [] ->
  reloadFunc (ws s) = Some Demo.eager ->
  exists s' fr',
    run W a Demo.eager Run.one_cycle s = Some s' /\
    main s' = MWait fr' /\ f_ln fr' = f_ln fr /\ coord s' = CClear /\
    reloadServe (ws s') = [] /\ reloadFunc (ws s') = Some Demo.eager /\
    count is_spawn (trace s') = S (count is_spawn (trace s)) /\
    count is_listen (trace s') = count is_listen (trace s).
Proof.
  destruct s as [[rf fn rs ad hd] m c wp sv lg tr]; simpl.
  intros -> -> -> ->. do 2 eexists. repeat split.
Qed.

(** So serve cycles go on being spawned: for every [n] a run reaches
    [n + 1] serve cycles after a single [net.Listen]. *)
Lemma any_number_of_cycles n :
  exists s fr,
    reaches Demo.W_ok Demo.address Demo.eager Demo.path
      (Run.eager_startup ++ Run.cycles n) s /\
    main s = MWait fr /\ coord s = CClear /\
    reloadServe (ws s) = [] /\ reloadFunc (ws s) = Some Demo.eager /\
    count is_spawn (trace s) = S n /\ count is_listen (trace s) = 1.
Proof.
  induction n as [|n (s & fr & (s0 & HN & Hrun) & Hm & Hc & Hrs & Hrf & Hsp & Hl)].
  - do 2 eexists. split; [exists Demo.s_new; split; [reflexivity|]|].
    + vm_compute. reflexivity.
    + repeat split.
  - destruct (one_cycle_runs Demo.W_ok Demo.address s fr Hm Hc Hrs Hrf)
      as (s' & fr' & Hrun' & Hm' & _ & Hc' & Hrs' & Hrf' & Hsp' & Hl').
    exists s', fr'. split; [exists s0; split; [exact HN|]|].
    + change (Run.cycles (S n)) with (Run.cycles n ++ Run.one_cycle).
      rewrite app_assoc, run_app, Hrun. exact Hrun'.
    + repeat split; auto; congruence.
Qed.

(** ** The claims *)

(** C1.  In every run, the coordinator's steps of lines 43-45, read in the
    order they happened, are whole iterations [clear; invoke; return;
    signal] followed by the part of the current iteration done so far: the
    handler is cleared first, then the callback is invoked, and the signal
    is sent only after the callback has returned.  The clearing step leaves
    the handler nil. *)
Theorem coordinator_iteration_order W address f filename acts s :
  reaches W address f filename acts s ->
  (exists n,
     rev (filter coord_event (trace s)) =
     List.concat (repeat cycle n) ++ firstn (coord_progress (coord s)) cycle) /\
  (forall tr', trace s = LClear :: tr' -> Handler (ws s) = None).
Proof.
  intros HR. destruct (order_inv_reaches _ _ _ _ _ _ HR) as (Hn & Hc & _).
  split; assumption.
Qed.

Lemma coordinator_iteration_order_witness :
  reaches Demo.W_ok Demo.address Demo.rebuild Demo.path Run.two_changes
    Run.reloaded /\
  (exists n,
     rev (filter coord_event (trace Run.reloaded)) =
     List.concat (repeat cycle n) ++
     firstn (coord_progress (coord Run.reloaded)) cycle) /\
  (forall tr', trace Run.reloaded = LClear :: tr' ->
     Handler (ws Run.reloaded) = None).
Proof.
  split; [exact two_changes_reaches|].
  exact (coordinator_iteration_order _ _ _ _ _ _ two_changes_reaches).
Defined.

(** C2, as stated, fails: in the run [two_changes] the second serve cycle is
    spawned while the coordinator, already in its next iteration, is inside
    the callback and the handler is the cleared nil one. *)
Lemma serve_cycle_sees_cleared_handler :
  ~ serve_cycles_see_built_handler Demo.W_ok Demo.address Demo.rebuild Demo.path.
Proof.
  intros H.
  specialize (H _ _ 7 None _ two_changes_reaches two_changes_last_spawn).
  vm_compute in H. discriminate H.
Qed.

(** C2, amended.  Whenever a serve cycle is spawned, the caller's own
    invocation of the callback has returned, and as many coordinator
    invocations have returned, signalled and been received as serve cycles
    were spawned before: the k-th serve cycle after the first comes after
    the return of the coordinator's k-th rebuild. *)
Theorem spawn_follows_rebuild_return W address f filename acts s post l h pre :
  reaches W address f filename acts s ->
  trace s = post ++ LSpawn l h :: pre ->
  count (is_return TMain) pre = 1 /\
  count is_spawn pre = count is_resume pre /\
  count is_resume pre <= count is_signal pre /\
  count is_signal pre <= count (is_return TCoord) pre.
Proof.
  intros HR Htr.
  destruct (spawn_history _ _ _ _ _ _ _ _ _ _ HR Htr)
    as (acts0 & s0 & fr & HR0 & <- & Hm & _).
  destruct (counts_inv_reaches _ _ _ _ _ _ HR0) as (Hmc & Hcc & (Hs & _) & _).
  unfold main_counts in Hmc. rewrite Hm in Hmc.
  unfold coord_counts in Hcc.
  destruct (coord s0); intuition lia.
Qed.

Lemma spawn_follows_rebuild_return_witness :
  reaches Demo.W_ok Demo.address Demo.rebuild Demo.path Run.two_changes
    Run.reloaded /\
  trace Run.reloaded =
    [] ++ LSpawn 7 None :: tl (trace Run.reloaded) /\
  count (is_return TMain) (tl (trace Run.reloaded)) = 1 /\
  count is_spawn (tl (trace Run.reloaded)) =
    count is_resume (tl (trace Run.reloaded)) /\
  count is_resume (tl (trace Run.reloaded)) <=
    count is_signal (tl (trace Run.reloaded)) /\
  count is_signal (tl (trace Run.reloaded)) <=
    count (is_return TCoord) (tl (trace Run.reloaded)).
Proof.
  split; [exact two_changes_reaches|]. split; [exact two_changes_last_spawn|].
  exact (spawn_follows_rebuild_return _ _ _ _ _ _ _ _ _ _
           two_changes_reaches two_changes_last_spawn).
Defined.

(** C3.  In every run at most one [net.Listen] call is made and no deferred
    [l.Close()] ever runs; every serve cycle is spawned on the listener that
    the one successful call returned, that call precedes the spawn and no
    call follows it.  So any two serve cycles share their listener. *)
Theorem listener_bound_once W address f filename acts s :
  reaches W address f filename acts s ->
  count is_listen (trace s) <= 1 /\
  count is_close (trace s) = 0 /\
  (forall post l h pre,
     trace s = post ++ LSpawn l h :: pre ->
     net_Listen W (listen_addr address) = inr l /\
     In (LListen (listen_addr address) (inr l)) pre /\
     count is_listen pre = 1 /\ count is_listen post = 0) /\
  (forall l h l' h',
     In (LSpawn l h) (trace s) -> In (LSpawn l' h') (trace s) -> l = l').
Proof.
  intros HR.
  pose proof (listen_once _ _ _ _ _ _ HR) as Hone.
  destruct (counts_inv_reaches _ _ _ _ _ _ HR) as (_ & _ & _ & Hclose).
  destruct (listen_inv_reaches _ _ _ _ _ _ HR) as (_ & _ & Hsp & _).
  repeat split; auto.
  - destruct (spawn_history _ _ _ _ _ _ _ _ _ _ HR H)
      as (acts0 & s0 & fr & HR0 & <- & Hm & -> & _).
    destruct (listen_inv_reaches _ _ _ _ _ _ HR0) as (_ & _ & _ & Hb).
    rewrite Hm in Hb. apply Hb.
  - destruct (spawn_history _ _ _ _ _ _ _ _ _ _ HR H)
      as (acts0 & s0 & fr & HR0 & <- & Hm & -> & _).
    destruct (listen_inv_reaches _ _ _ _ _ _ HR0) as (_ & _ & _ & Hb).
    rewrite Hm in Hb. apply Hb.
  - destruct (spawn_history _ _ _ _ _ _ _ _ _ _ HR H)
      as (acts0 & s0 & fr & HR0 & <- & Hm & _).
    destruct (counts_inv_reaches _ _ _ _ _ _ HR0) as (Hmc & _).
    unfold main_counts in Hmc. rewrite Hm in Hmc. apply Hmc.
  - destruct (spawn_history _ _ _ _ _ _ _ _ _ _ HR H)
      as (acts0 & s0 & fr & HR0 & Hpre & Hm & _).
    destruct (counts_inv_reaches _ _ _ _ _ _ HR0) as (Hmc & _).
    unfold main_counts in Hmc. rewrite Hm, Hpre in Hmc.
    rewrite H, count_app in Hone. simpl in Hone. lia.
  - intros l h l' h' H1 H2.
    apply Hsp in H1. apply Hsp in H2. congruence.
Qed.

Lemma listener_bound_once_witness :
  reaches Demo.W_ok Demo.address Demo.rebuild Demo.path Run.two_changes
    Run.reloaded /\
  count is_spawn (trace Run.reloaded) = 2 /\
  count is_listen (trace Run.reloaded) <= 1 /\
  count is_close (trace Run.reloaded) = 0 /\
  (forall post l h pre,
     trace Run.reloaded = post ++ LSpawn l h :: pre ->
     net_Listen Demo.W_ok (listen_addr Demo.address) = inr l /\
     In (LListen (listen_addr Demo.address) (inr l)) pre /\
     count is_listen pre = 1 /\ count is_listen post = 0) /\
  (forall l h l' h',
     In (LSpawn l h) (trace Run.reloaded) ->
     In (LSpawn l' h') (trace Run.reloaded) -> l = l').
Proof.
  split; [exact two_changes_reaches|]. split; [vm_compute; reflexivity|].
  exact (listener_bound_once _ _ _ _ _ _ two_changes_reaches).
Defined.

(** C4, as stated, fails: in the run [both_invoke] the coordinator, started
    at line 40, has invoked the callback too when the caller spawns the
    first serve cycle. *)
Lemma two_invocations_before_serving :
  ~ one_invocation_before_serving Demo.W_ok Demo.address Demo.rebuild Demo.path.
Proof.
  intros H.
  specialize (H _ _ _ _ _ _ both_invoke_reaches both_invoke_first_spawn).
  vm_compute in H. specialize (H eq_refl). discriminate H.
Qed.

(** C4, amended.  The caller invokes the callback at most once in a run; at
    line 49 the call is always enabled, whatever the watcher has or has not
    seen, and enters the callback given to [ListenAndServe]; and whenever a
    serve cycle is spawned that one invocation has been made and has
    returned.  The state in which [New] returns has no invocation.  Nothing
    is said of the coordinator's invocations, which may come before the first
    serve cycle as well. *)
Theorem caller_rebuilds_once_before_serving W address f filename acts s :
  reaches W address f filename acts s ->
  count (is_invoke TMain) (trace s) <= 1 /\
  (main s = MStart -> count is_any_invoke (trace s) = 0) /\
  (main s = MCall ->
     exists s', step W address f AMain s = Some s' /\ main s' = MReload f /\
                trace s' = LInvoke TMain :: trace s) /\
  (forall post l h pre,
     trace s = post ++ LSpawn l h :: pre ->
     count (is_invoke TMain) pre = 1 /\ count (is_return TMain) pre = 1 /\
     1 <= count is_any_invoke pre).
Proof.
  intros HR.
  destruct (counts_inv_reaches _ _ _ _ _ _ HR) as (Hmc & Hcc & _).
  destruct (listen_inv_reaches _ _ _ _ _ _ HR) as (Ha & _).
  unfold main_counts in Hmc. unfold coord_counts in Hcc.
  repeat split.
  - destruct (main s); lia.
  - intros Hm. rewrite count_any_invoke. rewrite Hm in Hmc.
    destruct Hmc as (Hc & ? & _). rewrite Hc in Hcc. lia.
  - intros Hm. destruct Ha as (_ & Hf); [congruence|].
    destruct s as [[rf fn rs ad hd] m c wp sv lg tr]; simpl in *.
    subst m fn. simpl. eexists; repeat split.
  - destruct (spawn_history _ _ _ _ _ _ _ _ _ _ HR H)
      as (acts0 & s0 & fr & HR0 & <- & Hm & _).
    destruct (counts_inv_reaches _ _ _ _ _ _ HR0) as (Hmc0 & _).
    unfold main_counts in Hmc0. rewrite Hm in Hmc0. apply Hmc0.
  - destruct (spawn_history _ _ _ _ _ _ _ _ _ _ HR H)
      as (acts0 & s0 & fr & HR0 & <- & Hm & _).
    destruct (counts_inv_reaches _ _ _ _ _ _ HR0) as (Hmc0 & _).
    unfold main_counts in Hmc0. rewrite Hm in Hmc0. apply Hmc0.
  - destruct (spawn_history _ _ _ _ _ _ _ _ _ _ HR H)
      as (acts0 & s0 & fr & HR0 & <- & Hm & _).
    destruct (counts_inv_reaches _ _ _ _ _ _ HR0) as (Hmc0 & _).
    unfold main_counts in Hmc0. rewrite Hm in Hmc0.
    rewrite count_any_invoke. lia.
Qed.

Lemma caller_rebuilds_once_before_serving_witness :
  reaches Demo.W_ok Demo.address Demo.rebuild Demo.path Run.both_invoke
    Run.raced /\
  count is_any_invoke (trace Run.raced) = 2 /\
  count (is_invoke TMain) (trace Run.raced) <= 1 /\
  (main Run.raced = MStart ->
   count is_any_invoke (trace Run.raced) = 0) /\
  (main Run.raced = MCall ->
     exists s', step Demo.W_ok Demo.address Demo.rebuild AMain
                  Run.raced = Some s' /\
                main s' = MReload Demo.rebuild /\
                trace s' = LInvoke TMain :: trace Run.raced) /\
  (forall post l h pre,
     trace Run.raced = post ++ LSpawn l h :: pre ->
     count (is_invoke TMain) pre = 1 /\ count (is_return TMain) pre = 1 /\
     1 <= count is_any_invoke pre).
Proof.
  split; [exact both_invoke_reaches|]. split; [vm_compute; reflexivity|].
  exact (caller_rebuilds_once_before_serving _ _ _ _ _ _ both_invoke_reaches).
Defined.

(** C5, as stated, fails: in the run [first_change] the name [a] is in
    [ReloadFile] when the write of [b] is taken; [b] is not dropped,
    [watchFile] sends it once [a] has been received. *)
Lemma second_change_delivered :
  ~ second_change_dropped Demo.W_ok Demo.address Demo.rebuild Demo.path.
Proof.
  intros H.
  specialize (H _ _ (Demo.write_of "b") Run.coordinator_catches_up
                Run.delivered
                first_change_reaches).
  assert (H1 : ReloadFile (ws Run.queued) <> [])
    by (vm_compute; discriminate).
  assert (H2 : run Demo.W_ok Demo.address Demo.rebuild
                 (AWatchEvent (Demo.write_of "b") :: Run.coordinator_catches_up)
                 Run.queued =
               Some Run.delivered)
    by (vm_compute; reflexivity).
  specialize (H H1 eq_refl eq_refl H2).
  vm_compute in H. discriminate H.
Qed.

(** Both changes are received, in the order written, after the preloaded
    path. *)
Example both_changes_received :
  rev (received (trace Run.delivered)) =
  [Demo.path; "a"; "b"].
Proof. vm_compute. reflexivity. Qed.

(** C5, amended.  [ReloadFile] never holds more than one name.  The watched
    path followed by the names of all write events [watchFile] has taken is,
    in order, what has been received, then what is in the channel, then the
    one name [watchFile] holds while blocked in its send: no change is
    dropped.  While it holds a name [watchFile] takes no further event or
    error; its send is blocked exactly while the channel is full and puts the
    name on the channel once it is empty. *)
Theorem changes_queue_and_are_not_dropped W address f filename acts s :
  reaches W address f filename acts s ->
  List.length (ReloadFile (ws s)) <= 1 /\
  filename :: rev (taken (trace s)) =
    rev (received (trace s)) ++ ReloadFile (ws s) ++ pending (watch s) /\
  (forall n, watch s = WSend n ->
     (forall ev, step W address f (AWatchEvent ev) s = None) /\
     (forall e, step W address f (AWatchError e) s = None) /\
     (ReloadFile (ws s) <> [] -> step W address f AWatchSend s = None) /\
     (ReloadFile (ws s) = [] ->
        exists s', step W address f AWatchSend s = Some s' /\
                   ReloadFile (ws s') = [n] /\ watch s' = WSelect /\
                   trace s' = LSendFile n :: trace s)).
Proof.
  intros HR. destruct (file_inv_reaches _ _ _ _ _ _ HR) as (Hq & Hp & Hl).
  split; [exact Hl|]. split.
  - rewrite Hp, app_assoc, <- Hq. reflexivity.
  - destruct s as [[rf fn rs ad hd] m c wp sv lg tr]; simpl in *.
    intros n ->. repeat split.
    + intros Hne. unfold watchFile_send, chan_send; simpl.
      destruct rf; [congruence | reflexivity].
    + intros ->. unfold watchFile_send, chan_send; simpl.
      eexists; repeat split.
Qed.

Lemma changes_queue_and_are_not_dropped_witness :
  reaches Demo.W_ok Demo.address Demo.rebuild Demo.path
    (Run.first_change ++ [AWatchEvent (Demo.write_of "b")]) Run.held /\
  watch Run.held = WSend "b" /\
  List.length (ReloadFile (ws Run.held)) <= 1 /\
  Demo.path :: rev (taken (trace Run.held)) =
    rev (received (trace Run.held)) ++ ReloadFile (ws Run.held) ++
    pending (watch Run.held) /\
  (forall n, watch Run.held = WSend n ->
     (forall ev,
        step Demo.W_ok Demo.address Demo.rebuild (AWatchEvent ev) Run.held = None) /\
     (forall e,
        step Demo.W_ok Demo.address Demo.rebuild (AWatchError e) Run.held = None) /\
     (ReloadFile (ws Run.held) <> [] ->
        step Demo.W_ok Demo.address Demo.rebuild AWatchSend Run.held = None) /\
     (ReloadFile (ws Run.held) = [] ->
        exists s',
          step Demo.W_ok Demo.address Demo.rebuild AWatchSend Run.held = Some s' /\
          ReloadFile (ws s') = [n] /\ watch s' = WSelect /\
          trace s' = LSendFile n :: trace Run.held)).
Proof.
  split; [exact second_change_held|]. split; [vm_compute; reflexivity|].
  exact (changes_queue_and_are_not_dropped _ _ _ _ _ _ second_change_held).
Defined.

(** C6, as stated, fails: in the run [coordinator_ready] the coordinator
    completes its send while the caller has not yet called the callback, and
    the signal stays in the channel. *)
Lemma signal_sent_without_receiver :
  ~ signal_is_handshake Demo.W_ok Demo.address Demo.rebuild Demo.path.
Proof.
  intros H.
  assert (H1 : coord Run.ready = CSend) by (vm_compute; reflexivity).
  assert (H2 : step Demo.W_ok Demo.address Demo.rebuild ACoord Run.ready =
               Some Run.signalled)
    by (vm_compute; reflexivity).
  destruct (H _ _ _ coordinator_ready_reaches H1 H2) as (_ & Hb).
  vm_compute in Hb. discriminate Hb.
Qed.

(** C6, amended.  [reloadServe] carries no data and has one slot: the
    signals sent are those received plus the at most one in the channel.  At
    line 45 the send completes at once when the slot is empty, whatever the
    caller is doing, and leaves the signal in the channel; it blocks exactly
    while an earlier signal is still there. *)
Theorem signal_channel_has_one_slot W address f filename acts s :
  reaches W address f filename acts s ->
  count is_signal (trace s) =
    count is_resume (trace s) + List.length (reloadServe (ws s)) /\
  List.length (reloadServe (ws s)) <= 1 /\
  (coord s = CSend ->
     (reloadServe (ws s) = [] ->
        exists s', step W address f ACoord s = Some s' /\
                   reloadServe (ws s') = [tt] /\ coord s' = CClear /\
                   main s' = main s /\ trace s' = LSignal :: trace s) /\
     (reloadServe (ws s) <> [] -> step W address f ACoord s = None)).
Proof.
  intros HR.
  destruct (counts_inv_reaches _ _ _ _ _ _ HR) as (_ & _ & (Hs & Hl) & _).
  split; [exact Hs|]. split; [exact Hl|].
  destruct s as [[rf fn rs ad hd] m c wp sv lg tr]; simpl in *.
  intros ->. split.
  - intros ->. eexists; repeat split.
  - intros Hne. unfold ListenAndServe_func1, chan_send; simpl.
    destruct rs; [congruence | reflexivity].
Qed.

Lemma signal_channel_has_one_slot_witness :
  reaches Demo.W_ok Demo.address Demo.rebuild Demo.path Run.coordinator_ready
    Run.ready /\
  coord Run.ready = CSend /\ reloadServe (ws Run.ready) = [] /\
  count is_signal (trace Run.ready) =
    count is_resume (trace Run.ready) + List.length (reloadServe (ws Run.ready)) /\
  List.length (reloadServe (ws Run.ready)) <= 1 /\
  (coord Run.ready = CSend ->
     (reloadServe (ws Run.ready) = [] ->
        exists s',
          step Demo.W_ok Demo.address Demo.rebuild ACoord Run.ready = Some s' /\
          reloadServe (ws s') = [tt] /\ coord s' = CClear /\
          main s' = main Run.ready /\ trace s' = LSignal :: trace Run.ready) /\
     (reloadServe (ws Run.ready) <> [] ->
        step Demo.W_ok Demo.address Demo.rebuild ACoord Run.ready = None)).
Proof.
  split; [exact coordinator_ready_reaches|].
  split; [vm_compute; reflexivity|]. split; [vm_compute; reflexivity|].
  exact (signal_channel_has_one_slot _ _ _ _ _ _ coordinator_ready_reaches).
Defined.

(** C7.  The address bound is the one given, or [":http"] when that is
    empty; [net.Listen] is called at most once, with that address.  The
    caller has returned with an error exactly when that call has failed with
    it, and then no serve cycle has been spawned; once the call has
    succeeded the caller is in the loop of lines 67-75 for good.  At line 63
    the caller always moves, to the return when [net.Listen] fails and into
    the loop when it succeeds. *)
Theorem bind_failure_is_the_only_return W address f filename acts s :
  reaches W address f filename acts s ->
  listen_addr address = (if String.eqb address "" then ":http" else address) /\
  count is_listen (trace s) <= 1 /\
  (forall a r, In (LListen a r) (trace s) ->
     a = listen_addr address /\ r = net_Listen W a) /\
  (forall e, main s = MReturned e <->
             In (LListen (listen_addr address) (inl e)) (trace s)) /\
  (forall e, main s = MReturned e ->
     count is_spawn (trace s) = 0 /\
     forall a, step W address f a s <> None -> a <> AMain) /\
  (forall l, In (LListen (listen_addr address) (inr l)) (trace s) ->
     exists fr, f_ln fr = l /\ (main s = MLoop fr \/ main s = MWait fr)) /\
  (main s = MListen ->
     exists s', step W address f AMain s = Some s' /\
       match net_Listen W (listen_addr address) with
       | inl e => main s' = MReturned e
       | inr l => exists fr, main s' = MLoop fr /\ f_ln fr = l
       end).
Proof.
  intros HR.
  pose proof (listen_once _ _ _ _ _ _ HR) as Hone.
  destruct (counts_inv_reaches _ _ _ _ _ _ HR) as (Hmc & _).
  destruct (listen_inv_reaches _ _ _ _ _ _ HR) as (Ha & Hl & _ & Hm).
  unfold main_counts in Hmc. unfold bound in Hm.
  split; [reflexivity|]. split; [exact Hone|]. split; [exact Hl|].
  split; [|split; [|split]].
  - intros e; split.
    + intros He. rewrite He in Hm. exact Hm.
    + intros Hin. pose proof (count_In is_listen _ _ Hin eq_refl) as Hc.
      destruct (Hl _ _ Hin) as (_ & Hr).
      destruct (main s) as [| | | |fr|fr|e'];
        try (exfalso; lia).
      * destruct Hm as (_ & Hb & _). congruence.
      * destruct Hm as (_ & Hb & _). congruence.
      * destruct (Hl _ _ Hm) as (_ & Hr'). congruence.
  - intros e He. rewrite He in Hmc. split; [lia|].
    intros a Hs ->. apply Hs.
    destruct s; simpl in *. subst. reflexivity.
  - intros l Hin. pose proof (count_In is_listen _ _ Hin eq_refl) as Hc.
    destruct (Hl _ _ Hin) as (_ & Hr).
    destruct (main s) as [| | | |fr|fr|e'];
      try (exfalso; lia).
    + exists fr. destruct Hm as (_ & Hb & _). split; [congruence | auto].
    + exists fr. destruct Hm as (_ & Hb & _). split; [congruence | auto].
    + destruct (Hl _ _ Hm) as (_ & Hr'). congruence.
  - intros Hml. destruct Ha as (Had & _); [congruence|].
    destruct s as [[rf fn rs ad hd] m c wp sv lg tr]; simpl in *.
    subst m ad. unfold step_main, listenAndServe; simpl.
    destruct (net_Listen W (listen_addr address)) as [e|l];
      eexists; split; try reflexivity.
    eexists; split; reflexivity.
Qed.

Lemma bind_failure_is_the_only_return_witness :
  reaches Demo.W_busy "" Demo.rebuild Demo.path Run.to_bind Run.refused /\
  main Run.refused = MReturned "bind: address already in use" /\
  hd_error (trace Run.refused) =
    Some (LListen ":http" (inl "bind: address already in use")) /\
  listen_addr "" = (if String.eqb "" "" then ":http" else "") /\
  count is_listen (trace Run.refused) <= 1 /\
  (forall a r, In (LListen a r) (trace Run.refused) ->
     a = listen_addr "" /\ r = net_Listen Demo.W_busy a) /\
  (forall e, main Run.refused = MReturned e <->
             In (LListen (listen_addr "") (inl e)) (trace Run.refused)) /\
  (forall e, main Run.refused = MReturned e ->
     count is_spawn (trace Run.refused) = 0 /\
     forall a, step Demo.W_busy "" Demo.rebuild a Run.refused <> None ->
               a <> AMain) /\
  (forall l, In (LListen (listen_addr "") (inr l)) (trace Run.refused) ->
     exists fr, f_ln fr = l /\
                (main Run.refused = MLoop fr \/ main Run.refused = MWait fr)) /\
  (main Run.refused = MListen ->
     exists s', step Demo.W_busy "" Demo.rebuild AMain Run.refused = Some s' /\
       match net_Listen Demo.W_busy (listen_addr "") with
       | inl e => main s' = MReturned e
       | inr l => exists fr, main s' = MLoop fr /\ f_ln fr = l
       end).
Proof.
  split; [exact to_bind_refused|].
  split; [vm_compute; reflexivity|]. split; [vm_compute; reflexivity|].
  exact (bind_failure_is_the_only_return _ _ _ _ _ _ to_bind_refused).
Defined.

(** C8.  At the [select], any number of watcher errors in a row are each
    taken and logged and leave [watchFile] at the [select], the server and
    the other goroutines untouched; a write event that follows is taken, and
    its name is put on [ReloadFile] as soon as the channel is empty. *)
Theorem watcher_errors_are_logged_and_survived W address f (errs : list error) s :
  watch s = WSelect ->
  exists s',
    run W address f (map AWatchError errs) s = Some s' /\
    watch s' = WSelect /\ ws s' = ws s /\ main s' = main s /\
    coord s' = coord s /\ serving s' = serving s /\
    log s' = log s ++ map (fun e => ("Watcher Error: " ++ e)%string) errs /\
    forall ev, is_write ev = true ->
      exists s'',
        step W address f (AWatchEvent ev) s' = Some s'' /\
        watch s'' = WSend (fsnotify.Name ev) /\ ws s'' = ws s' /\
        (ReloadFile (ws s'') = [] ->
           exists s3, step W address f AWatchSend s'' = Some s3 /\
                      ReloadFile (ws s3) = [fsnotify.Name ev] /\
                      watch s3 = WSelect).
Proof.
  revert s. induction errs as [|e errs IH]; intros s Hw.
  - exists s. simpl. rewrite app_nil_r. repeat split; auto.
    intros ev Hev.
    destruct s as [[rf fn rs ad hd] m c wp sv lg tr]; simpl in *. subst wp.
    unfold watchFile_event; simpl. rewrite Hev.
    eexists; repeat split. simpl. intros ->.
    eexists; repeat split.
  - destruct s as [[rf fn rs ad hd] m c wp sv lg tr]; simpl in *. subst wp.
    unfold watchFile_error; simpl.
    edestruct IH as (s' & Hrun & Hw' & Hws & Hm & Hc & Hsv & Hlog & Hev);
      [| exists s'; split; [exact Hrun|]]; [reflexivity|].
    simpl in *. repeat split; auto.
    rewrite Hlog, <- app_assoc. reflexivity.
Qed.

Lemma watcher_errors_are_logged_and_survived_witness :
  watch Demo.s_new = WSelect /\
  exists s',
    run Demo.W_ok Demo.address Demo.rebuild
      (map AWatchError ["inotify: queue overflow"; "read: bad descriptor"])
      Demo.s_new = Some s' /\
    watch s' = WSelect /\ ws s' = ws Demo.s_new /\ main s' = main Demo.s_new /\
    coord s' = coord Demo.s_new /\ serving s' = serving Demo.s_new /\
    log s' = log Demo.s_new ++
             map (fun e => ("Watcher Error: " ++ e)%string)
               ["inotify: queue overflow"; "read: bad descriptor"] /\
    forall ev, is_write ev = true ->
      exists s'',
        step Demo.W_ok Demo.address Demo.rebuild (AWatchEvent ev) s' = Some s'' /\
        watch s'' = WSend (fsnotify.Name ev) /\ ws s'' = ws s' /\
        (ReloadFile (ws s'') = [] ->
           exists s3, step Demo.W_ok Demo.address Demo.rebuild AWatchSend s'' = Some s3 /\
                      ReloadFile (ws s3) = [fsnotify.Name ev] /\
                      watch s3 = WSelect).
Proof.
  split; [reflexivity|].
  exact (watcher_errors_are_logged_and_survived Demo.W_ok Demo.address Demo.rebuild
           ["inotify: queue overflow"; "read: bad descriptor"] Demo.s_new eq_refl).
Defined.

(** C9.  At the [select], a raw event is always taken.  When its [Op] has
    the [Write] bit, [watchFile] logs and goes to send the event's [Name],
    which is what lands on [ReloadFile] when the send completes; otherwise
    nothing is logged, nothing will be sent and [watchFile] is back at the
    [select].  A create, remove, rename or chmod event has no [Write] bit; a
    write event has it. *)
Theorem change_event_iff_write W address f s ev :
  watch s = WSelect ->
  is_write ev = Z.testbit (fsnotify.Op ev) 1 /\
  (In (fsnotify.Op ev)
      [fsnotify.Create; fsnotify.Remove; fsnotify.Rename; fsnotify.Chmod] ->
   is_write ev = false) /\
  (fsnotify.Op ev = fsnotify.Write -> is_write ev = true) /\
  exists s',
    step W address f (AWatchEvent ev) s = Some s' /\
    ws s' = ws s /\
    taken (trace s') =
      (if is_write ev then [fsnotify.Name ev] else []) ++ taken (trace s) /\
    (pending (watch s') <> [] <-> is_write ev = true) /\
    (is_write ev = true ->
       watch s' = WSend (fsnotify.Name ev) /\
       log s' = log s ++ ["Reloading the file..."] /\
       (ReloadFile (ws s') = [] ->
          exists s'', step W address f AWatchSend s' = Some s'' /\
                      ReloadFile (ws s'') = [fsnotify.Name ev] /\
                      trace s'' = LSendFile (fsnotify.Name ev) :: trace s')) /\
    (is_write ev = false ->
       watch s' = WSelect /\ log s' = log s /\
       step W address f AWatchSend s' = None).
Proof.
  intros Hw. split; [apply is_write_testbit|]. split; [|split].
  - unfold is_write. simpl. intros [<-|[<-|[<-|[<-|[]]]]]; reflexivity.
  - unfold is_write. intros ->. reflexivity.
  - destruct s as [[rf fn rs ad hd] m c wp sv lg tr]; simpl in *. subst wp.
    unfold watchFile_event; simpl.
    destruct (is_write ev) eqn:E; eexists; (split; [reflexivity|]); simpl;
      rewrite ?E, ?app_nil_r; repeat split; auto; try discriminate;
      try congruence.
    simpl. intros ->. eexists; repeat split.
Qed.

Lemma change_event_iff_write_witness :
  watch Demo.s_new = WSelect /\
  is_write (Demo.write_of "a") = true /\
  exists s',
    step Demo.W_ok Demo.address Demo.rebuild (AWatchEvent (Demo.write_of "a"))
      Demo.s_new = Some s' /\
    ws s' = ws Demo.s_new /\
    taken (trace s') =
      (if is_write (Demo.write_of "a")
       then [fsnotify.Name (Demo.write_of "a")] else []) ++
      taken (trace Demo.s_new) /\
    (pending (watch s') <> [] <-> is_write (Demo.write_of "a") = true) /\
    (is_write (Demo.write_of "a") = true ->
       watch s' = WSend (fsnotify.Name (Demo.write_of "a")) /\
       log s' = log Demo.s_new ++ ["Reloading the file..."] /\
       (ReloadFile (ws s') = [] ->
          exists s'', step Demo.W_ok Demo.address Demo.rebuild AWatchSend s' = Some s'' /\
                      ReloadFile (ws s'') = [fsnotify.Name (Demo.write_of "a")] /\
                      trace s'' = LSendFile (fsnotify.Name (Demo.write_of "a")) :: trace s')) /\
    (is_write (Demo.write_of "a") = false ->
       watch s' = WSelect /\ log s' = log Demo.s_new /\
       step Demo.W_ok Demo.address Demo.rebuild AWatchSend s' = None).
Proof.
  split; [reflexivity|]. split; [reflexivity|].
  exact (proj2 (proj2 (proj2
    (change_event_iff_write Demo.W_ok Demo.address Demo.rebuild Demo.s_new
       (Demo.write_of "a") eq_refl)))).
Defined.

(** C10.  When [New(filename)] returns, [ReloadFile] holds [filename] and
    nothing else.  It stays so, whatever the goroutines and the watcher do,
    until the first receive; the first receive in a run gets [filename]; and
    a callback that comes to its receive before any other has received is
    not blocked. *)
Theorem New_preloads_ReloadFile W address f filename s0 :
  New W filename = Returned s0 ->
  ReloadFile (ws s0) = [filename] /\
  forall acts s,
    run W address f acts s0 = Some s ->
    (received (trace s) = [] -> ReloadFile (ws s) = [filename]) /\
    (forall post t n pre,
       trace s = post ++ LRecvFile t n :: pre -> received pre = [] ->
       n = filename) /\
    (received (trace s) = [] ->
     forall k,
       (main s = MReload (CbRecv k) ->
        exists s', step W address f AMain s = Some s' /\
                   main s' = MReload (k filename)) /\
       (coord s = CReload (CbRecv k) ->
        exists s', step W address f ACoord s = Some s' /\
                   coord s' = CReload (k filename))).
Proof.
  intros HN. split; [rewrite (New_Returned _ _ _ HN); reflexivity|].
  assert (Hfirst : forall acts s,
            reaches W address f filename acts s ->
            received (trace s) = [] -> ReloadFile (ws s) = [filename]).
  { intros acts s HR Hr.
    destruct (file_inv_reaches _ _ _ _ _ _ HR) as (Hq & _ & Hl).
    rewrite Hr in Hq. simpl in Hq.
    destruct (ReloadFile (ws s)) as [|x [|y rest]]; simpl in Hl.
    - discriminate Hq.
    - injection Hq as <- _. reflexivity.
    - lia. }
  intros acts s Hrun.
  assert (HR : reaches W address f filename acts s) by (exists s0; auto).
  split; [apply (Hfirst _ _ HR)|]. split.
  - intros post t n pre Htr Hpre.
    destruct (history _ _ _ _ _ _ _ _ _ HR Htr)
      as [(E & _)|(acts0 & a & p0 & p1 & HR0 & Hs & H0 & H1)];
      [discriminate E|].
    rewrite <- H0 in H1, Hpre.
    destruct (recv_step _ _ _ _ _ _ _ _ Hs H1) as (rest & Hrest).
    rewrite (Hfirst _ _ HR0 Hpre) in Hrest. congruence.
  - intros Hr k. pose proof (Hfirst _ _ HR Hr) as Hrf.
    destruct s as [[rf fn rs ad hd] m c wp sv lg tr]; simpl in *.
    subst rf. split; intros ->; eexists; split; reflexivity.
Qed.

Lemma New_preloads_ReloadFile_witness :
  New Demo.W_ok Demo.path = Returned Demo.s_new /\
  ReloadFile (ws Demo.s_new) = [Demo.path] /\
  forall acts s,
    run Demo.W_ok Demo.address Demo.rebuild acts Demo.s_new = Some s ->
    (received (trace s) = [] -> ReloadFile (ws s) = [Demo.path]) /\
    (forall post t n pre,
       trace s = post ++ LRecvFile t n :: pre -> received pre = [] ->
       n = Demo.path) /\
    (received (trace s) = [] ->
     forall k,
       (main s = MReload (CbRecv k) ->
        exists s', step Demo.W_ok Demo.address Demo.rebuild AMain s = Some s' /\
                   main s' = MReload (k Demo.path)) /\
       (coord s = CReload (CbRecv k) ->
        exists s', step Demo.W_ok Demo.address Demo.rebuild ACoord s = Some s' /\
                   coord s' = CReload (k Demo.path))).
Proof.
  split; [reflexivity|].
  exact (New_preloads_ReloadFile Demo.W_ok Demo.address Demo.rebuild Demo.path
           Demo.s_new eq_refl).
Defined.

(** ** Further properties of the code *)

Lemma coordinator_takes_path_reaches :
  reaches Demo.W_ok Demo.address Demo.rebuild Demo.path
    Run.coordinator_takes_path Run.starved.
Proof. exists Demo.s_new. split; [reflexivity | vm_compute; reflexivity]. Qed.

Lemma coordinator_goes_on_reaches :
  reaches Demo.W_ok Demo.address Demo.rebuild Demo.path
    (Run.coordinator_takes_path ++ Run.coordinator_goes_on)
    Run.ahead.
Proof. exists Demo.s_new. split; [reflexivity | vm_compute; reflexivity]. Qed.

Lemma two_served_reaches :
  reaches Demo.W_ok Demo.address Demo.rebuild Demo.path Run.two_served
    Run.served.
Proof. exists Demo.s_new. split; [reflexivity | vm_compute; reflexivity]. Qed.

(** A step never removes a serve goroutine or changes its listener, and
    never takes one back from [ws.Serve(l)]. *)
Lemma serving_grows W address f a s s' :
  step W address f a s = Some s' ->
  (exists more,
     map serve_listener (serving s') = map serve_listener (serving s) ++ more) /\
  List.length (filter serve_started (serving s)) <=
  List.length (filter serve_started (serving s')).
Proof.
  destruct s as [[rf fn rs ad hd] m c wp sv lg tr].
  intros H. destruct a.
  1-5: step_inv H; simpl;
    try (split; [exists []; rewrite app_nil_r; reflexivity | lia]).
  - split; [eexists; rewrite map_app; reflexivity|].
    rewrite filter_app, length_app. lia.
  - unfold step, listenAndServe_func1 in H;
      cbn [serving ws main coord watch log trace] in H.
    destruct (nth_error sv i) as [[addr l|l]|] eqn:E; try discriminate H.
    destruct (update_nth_split sv i _ (SServe l) E) as (l1 & l2 & E1 & E2).
    rewrite E2 in H. injection H as <-. simpl. subst sv. split.
    + exists []. rewrite !map_app, app_nil_r. reflexivity.
    + rewrite !filter_app, !length_app. simpl. lia.
Qed.

(** X1.  [New] never blocks and ends in one of two ways.  It returns only
    when the watcher was created and the file registered, and then the
    server has a nil handler, an empty [reloadServe], nothing logged, and
    [watchFile] running at its [select]; otherwise the process ends with
    [log.Fatal], for a failed [NewWatcher] (whatever [Add] would have said)
    with the message [Watcher: ...], for a failed [Add] with
    [New WatcherServer: ...]. *)
Theorem New_returns_or_is_fatal W filename :
  New W filename <> Blocked /\
  (forall s, New W filename = Returned s ->
     NewWatcher_err W = None /\ Add_err W filename = None /\
     Handler (ws s) = None /\ reloadServe (ws s) = [] /\
     reloadFunc (ws s) = None /\ watch s = WSelect /\ main s = MStart /\
     coord s = CNotStarted /\ serving s = [] /\ log s = []) /\
  (NewWatcher_err W = None -> Add_err W filename = None ->
     exists s, New W filename = Returned s) /\
  (forall e, NewWatcher_err W = Some e ->
     New W filename = Fatal ("Watcher: " ++ e)%string) /\
  (forall e, NewWatcher_err W = None -> Add_err W filename = Some e ->
     New W filename = Fatal ("New WatcherServer: " ++ e)%string).
Proof.
  unfold New.
  destruct (NewWatcher_err W) as [e1|]; [|destruct (Add_err W filename) as [e2|]];
    simpl; repeat split; try discriminate; try congruence;
    try (injection H as <-; reflexivity);
    try (intros; eexists; reflexivity).
Qed.

(** X2.  In the loop of [listenAndServe] the stack of deferred [l.Close()]
    calls holds one entry per serve cycle spawned, each for the one
    listener, and none of them has run: the stack only grows. *)
Theorem deferred_closes_pile_up W address f filename acts s fr :
  reaches W address f filename acts s ->
  main s = MLoop fr \/ main s = MWait fr ->
  f_defers fr = repeat (f_ln fr) (count is_spawn (trace s)) /\
  count is_close (trace s) = 0.
Proof.
  intros HR Hm.
  pose proof (defer_inv_reaches _ _ _ _ _ _ HR) as Hd.
  destruct (counts_inv_reaches _ _ _ _ _ _ HR) as (_ & _ & _ & Hc).
  unfold defer_inv in Hd. split; [|exact Hc].
  destruct Hm as [Hm|Hm]; rewrite Hm in Hd; exact Hd.
Qed.

Lemma deferred_closes_pile_up_witness :
  reaches Demo.W_ok Demo.address Demo.rebuild Demo.path Run.two_changes
    Run.reloaded /\
  (main Run.reloaded =
     MLoop {| f_addr := Demo.address; f_ln := 7; f_defers := [7; 7] |} \/
   main Run.reloaded =
     MWait {| f_addr := Demo.address; f_ln := 7; f_defers := [7; 7] |}) /\
  [7; 7] = repeat 7 (count is_spawn (trace Run.reloaded)) /\
  count is_close (trace Run.reloaded) = 0.
Proof.
  assert (Hm : main Run.reloaded =
                 MLoop {| f_addr := Demo.address; f_ln := 7; f_defers := [7; 7] |} \/
               main Run.reloaded =
                 MWait {| f_addr := Demo.address; f_ln := 7; f_defers := [7; 7] |})
    by (right; vm_compute; reflexivity).
  split; [exact two_changes_reaches|]. split; [exact Hm|].
  exact (deferred_closes_pile_up _ _ _ _ _ _ _ two_changes_reaches Hm).
Defined.

(** X3.  There is one serve goroutine per serve cycle spawned, as many of
    them inside [ws.Serve(l)] as have written their log line, and each was
    given the listener that [net.Listen] returned.  No step removes a serve
    goroutine, changes its listener or takes it back from [ws.Serve(l)]: a
    reload adds a serve cycle to those already accepting on the listener,
    it does not replace them. *)
Theorem serve_goroutines_accumulate W address f filename acts s :
  reaches W address f filename acts s ->
  List.length (serving s) = count is_spawn (trace s) /\
  List.length (filter serve_started (serving s)) = count is_serve (trace s) /\
  (forall p, In p (serving s) ->
     net_Listen W (listen_addr address) = inr (serve_listener p)) /\
  (forall a s', step W address f a s = Some s' ->
     (exists more,
        map serve_listener (serving s') =
        map serve_listener (serving s) ++ more) /\
     List.length (filter serve_started (serving s)) <=
     List.length (filter serve_started (serving s'))).
Proof.
  intros HR.
  destruct (serve_inv_reaches _ _ _ _ _ _ HR) as (Hn & Hst & Hok & _).
  split; [exact Hn|]. split; [exact Hst|]. split.
  - intros p Hp. rewrite Forall_forall in Hok. apply (Hok p Hp).
  - intros a s' Hs. exact (serving_grows _ _ _ _ _ _ Hs).
Qed.

Lemma serve_goroutines_accumulate_witness :
  reaches Demo.W_ok Demo.address Demo.rebuild Demo.path Run.two_served
    Run.served /\
  serving Run.served = [SServe 7; SServe 7] /\
  List.length (serving Run.served) = count is_spawn (trace Run.served) /\
  List.length (filter serve_started (serving Run.served)) =
    count is_serve (trace Run.served) /\
  (forall p, In p (serving Run.served) ->
     net_Listen Demo.W_ok (listen_addr Demo.address) = inr (serve_listener p)) /\
  (forall a s', step Demo.W_ok Demo.address Demo.rebuild a Run.served = Some s' ->
     (exists more,
        map serve_listener (serving s') =
        map serve_listener (serving Run.served) ++ more) /\
     List.length (filter serve_started (serving Run.served)) <=
     List.length (filter serve_started (serving s'))).
Proof.
  split; [exact two_served_reaches|]. split; [vm_compute; reflexivity|].
  exact (serve_goroutines_accumulate _ _ _ _ _ _ two_served_reaches).
Defined.

(** X4.  The log is what the steps taken have written, in their order: one
    [Reloading the file...] per write event taken, one [Watcher Error: ...]
    per watcher error, one [Listening and serving <addr> ...] per serve
    goroutine started, with the address bound.  Nothing else is logged:
    not the rebuilds, not the signals, not a failed bind. *)
Theorem log_follows_trace W address f filename acts s :
  reaches W address f filename acts s ->
  log s = flat_map (log_line (listen_addr address)) (rev (trace s)).
Proof.
  intros HR. destruct (serve_inv_reaches _ _ _ _ _ _ HR) as (_ & _ & _ & Hlog).
  exact Hlog.
Qed.

Lemma log_follows_trace_witness :
  reaches Demo.W_ok Demo.address Demo.rebuild Demo.path Run.two_served
    Run.served /\
  log Run.served =
    ["Reloading the file..."; "Reloading the file...";
     "Listening and serving 127.0.0.1:0 ...";
     "Listening and serving 127.0.0.1:0 ..."] /\
  log Run.served =
    flat_map (log_line (listen_addr Demo.address)) (rev (trace Run.served)).
Proof.
  split; [exact two_served_reaches|]. split; [vm_compute; reflexivity|].
  exact (log_follows_trace _ _ _ _ _ _ two_served_reaches).
Defined.



(** X6.  The coordinator runs ahead of the accept loop by at most one
    stored signal: it has sent at most one signal more than were received,
    and has cleared the handler and invoked the callback at most twice more
    than signals were received.  After a failed bind no signal is ever
    received, so the coordinator, which is not stopped, clears and rebuilds
    at most twice and sends at most once. *)
Theorem coordinator_runs_at_most_two_ahead W address f filename acts s :
  reaches W address f filename acts s ->
  count is_signal (trace s) <= count is_resume (trace s) + 1 /\
  count (is_invoke TCoord) (trace s) <= count is_resume (trace s) + 2 /\
  count is_clear (trace s) <= count is_resume (trace s) + 2 /\
  count is_resume (trace s) <= count is_spawn (trace s) /\
  (forall e, main s = MReturned e ->
     count is_signal (trace s) <= 1 /\ count is_clear (trace s) <= 2 /\
     count (is_invoke TCoord) (trace s) <= 2).
Proof.
  intros HR.
  destruct (counts_inv_reaches _ _ _ _ _ _ HR) as (Hm & Hc & (Hs & Hl) & _).
  unfold main_counts in Hm. unfold coord_counts in Hc.
  assert (H1 : count is_signal (trace s) <= count is_resume (trace s) + 1) by lia.
  assert (H2 : count (is_invoke TCoord) (trace s) <= count is_signal (trace s) + 1
               /\ count is_clear (trace s) <= count is_signal (trace s) + 1)
    by (destruct (coord s); lia).
  repeat split; try lia.
  - destruct (main s); lia.
  - rewrite H in Hm. lia.
  - rewrite H in Hm. lia.
  - rewrite H in Hm. lia.
Qed.

Lemma coordinator_runs_at_most_two_ahead_witness :
  reaches Demo.W_ok Demo.address Demo.rebuild Demo.path
    (Run.coordinator_takes_path ++ Run.coordinator_goes_on) Run.ahead /\
  count is_resume (trace Run.ahead) = 0 /\
  count is_clear (trace Run.ahead) = 2 /\
  count (is_invoke TCoord) (trace Run.ahead) = 2 /\
  count is_signal (trace Run.ahead) <= count is_resume (trace Run.ahead) + 1 /\
  count (is_invoke TCoord) (trace Run.ahead) <=
    count is_resume (trace Run.ahead) + 2 /\
  count is_clear (trace Run.ahead) <= count is_resume (trace Run.ahead) + 2 /\
  count is_resume (trace Run.ahead) <= count is_spawn (trace Run.ahead) /\
  (forall e, main Run.ahead = MReturned e ->
     count is_signal (trace Run.ahead) <= 1 /\
     count is_clear (trace Run.ahead) <= 2 /\
     count (is_invoke TCoord) (trace Run.ahead) <= 2).
Proof.
  split; [exact coordinator_goes_on_reaches|].
  split; [vm_compute; reflexivity|]. split; [vm_compute; reflexivity|].
  split; [vm_compute; reflexivity|].
  exact (coordinator_runs_at_most_two_ahead _ _ _ _ _ _
           coordinator_goes_on_reaches).
Defined.

(** One step that takes no watcher event leaves a caller that waits on an
    empty [ReloadFile] where it is. *)
Lemma caller_waits_step W address f a s s' k :
  main s = MReload (CbRecv k) -> ReloadFile (ws s) = [] -> watch s = WSelect ->
  no_watch_event a = true ->
  step W address f a s = Some s' ->
  main s' = MReload (CbRecv k) /\ ReloadFile (ws s') = [] /\
  watch s' = WSelect /\
  count is_listen (trace s') = count is_listen (trace s) /\
  count is_spawn (trace s') = count is_spawn (trace s).
Proof.
  destruct s as [[rf fn rs ad hd] m c wp sv lg tr]; simpl.
  intros -> -> -> Ha H.
  destruct a; try discriminate Ha; step_inv H; simpl; auto.
Qed.

(** X7.  A caller whose callback waits on [ReloadFile] while the channel
    is empty (the coordinator's callback has taken the name [New] put
    there) stays in the callback for as long as [watchFile] takes no
    event, whatever the other goroutines do: [ListenAndServe] binds
    nothing and starts no serve cycle before a file change. *)
Theorem caller_waits_for_a_change W address f s k acts s' :
  main s = MReload (CbRecv k) -> ReloadFile (ws s) = [] -> watch s = WSelect ->
  forallb no_watch_event acts = true ->
  run W address f acts s = Some s' ->
  main s' = MReload (CbRecv k) /\ ReloadFile (ws s') = [] /\
  count is_listen (trace s') = count is_listen (trace s) /\
  count is_spawn (trace s') = count is_spawn (trace s).
Proof.
  revert s. induction acts as [|a acts IH]; intros s Hm Hr Hw Ha Hrun.
  - simpl in Hrun. injection Hrun as <-. auto.
  - simpl in Ha. apply andb_true_iff in Ha. destruct Ha as (Ha & Hacts).
    simpl in Hrun.
    destruct (step W address f a s) as [s1|] eqn:E; [|discriminate].
    destruct (caller_waits_step _ _ _ _ _ _ _ Hm Hr Hw Ha E)
      as (Hm1 & Hr1 & Hw1 & Hl1 & Hs1).
    destruct (IH s1 Hm1 Hr1 Hw1 Hacts Hrun) as (? & ? & ? & ?).
    repeat split; auto; congruence.
Qed.

Lemma caller_waits_for_a_change_witness :
  reaches Demo.W_ok Demo.address Demo.rebuild Demo.path
    Run.coordinator_takes_path Run.starved /\
  main Run.starved =
    MReload (CbRecv (fun name => CbInstall (Some (String.length name)) CbRet)) /\
  ReloadFile (ws Run.starved) = [] /\ watch Run.starved = WSelect /\
  forallb no_watch_event Run.coordinator_goes_on = true /\
  run Demo.W_ok Demo.address Demo.rebuild Run.coordinator_goes_on Run.starved =
    Some Run.ahead /\
  count (is_invoke TCoord)
    (trace Run.ahead) = 2 /\
  main Run.ahead =
    MReload (CbRecv (fun name => CbInstall (Some (String.length name)) CbRet)) /\
  ReloadFile (ws Run.ahead) = [] /\
  count is_listen (trace Run.ahead) =
    count is_listen (trace Run.starved) /\
  count is_spawn (trace Run.ahead) =
    count is_spawn (trace Run.starved).
Proof.
  assert (Hm : main Run.starved =
                 MReload (CbRecv (fun name =>
                            CbInstall (Some (String.length name)) CbRet)))
    by (vm_compute; reflexivity).
  assert (Hr : ReloadFile (ws Run.starved) = []) by (vm_compute; reflexivity).
  assert (Hw : watch Run.starved = WSelect) by (vm_compute; reflexivity).
  assert (Ha : forallb no_watch_event Run.coordinator_goes_on = true)
    by (vm_compute; reflexivity).
  assert (Hrun : run Demo.W_ok Demo.address Demo.rebuild
                   Run.coordinator_goes_on Run.starved =
                 Some Run.ahead)
    by (vm_compute; reflexivity).
  split; [exact coordinator_takes_path_reaches|].
  split; [exact Hm|]. split; [exact Hr|]. split; [exact Hw|].
  split; [exact Ha|]. split; [exact Hrun|]. split; [vm_compute; reflexivity|].
  exact (caller_waits_for_a_change _ _ _ _ _ _ _ Hm Hr Hw Ha Hrun).
Defined.

(** X8.  The goroutines stop only at channel operations.  Once started,
    the coordinator can always move unless its callback waits on an empty
    [ReloadFile] or it is at the send of line 45 with a signal still in
    [reloadServe]: it has no exit.  The caller can always move unless its
    callback waits on an empty [ReloadFile], it waits at line 74 on an
    empty [reloadServe], or it has returned the bind error. *)
Theorem goroutines_stop_only_at_channels W address f filename acts s :
  reaches W address f filename acts s ->
  (step W address f ACoord s = None ->
     coord s = CNotStarted \/
     (exists k, coord s = CReload (CbRecv k) /\ ReloadFile (ws s) = []) \/
     (coord s = CSend /\ reloadServe (ws s) = [tt])) /\
  (step W address f AMain s = None ->
     (exists k, main s = MReload (CbRecv k) /\ ReloadFile (ws s) = []) \/
     (exists fr, main s = MWait fr /\ reloadServe (ws s) = []) \/
     (exists e, main s = MReturned e)).
Proof.
  intros HR.
  destruct (counts_inv_reaches _ _ _ _ _ _ HR) as (Hm & Hc & (_ & Hl) & _).
  destruct (listen_inv_reaches _ _ _ _ _ _ HR) as (Ha & _).
  unfold main_counts in Hm. unfold coord_counts in Hc.
  destruct s as [[rf fn rs ad hd] m c wp sv lg tr]; simpl in *.
  split; intros H.
  - destruct c as [| | |k|]; simpl in H; auto; try discriminate H.
    + destruct Ha as (_ & ->); [|discriminate H].
      intros ->. destruct Hm as (E & _). discriminate E.
    + destruct k as [|k|h k]; simpl in H; try discriminate H.
      destruct rf; [|discriminate H]. right; left. eauto.
    + unfold ListenAndServe_func1, chan_send in H; simpl in H.
      destruct rs as [|[] [|]]; simpl in *; try discriminate H; try lia.
      right; right. auto.
  - destruct m as [| |k| |fr|fr|e]; simpl in H; try discriminate H.
    + destruct Ha as (_ & ->); [|discriminate H]. discriminate.
    + destruct k as [|k|h k]; simpl in H; try discriminate H.
      destruct rf; [|discriminate H]. left. eauto.
    + unfold step_main, listenAndServe in H; simpl in H.
      destruct (net_Listen W (listen_addr ad)); discriminate H.
    + unfold step_main, listenAndServe, chan_recv in H; simpl in H.
      destruct rs as [|[] rs]; [|discriminate H]. right; left. eauto.
    + right; right. eauto.
Qed.

Lemma goroutines_stop_only_at_channels_witness :
  reaches Demo.W_ok Demo.address Demo.rebuild Demo.path Run.both_invoke
    Run.raced /\
  step Demo.W_ok Demo.address Demo.rebuild ACoord Run.raced = None /\
  step Demo.W_ok Demo.address Demo.rebuild AMain Run.raced = None /\
  (step Demo.W_ok Demo.address Demo.rebuild ACoord Run.raced = None ->
     coord Run.raced = CNotStarted \/
     (exists k, coord Run.raced = CReload (CbRecv k) /\
                ReloadFile (ws Run.raced) = []) \/
     (coord Run.raced = CSend /\ reloadServe (ws Run.raced) = [tt])) /\
  (step Demo.W_ok Demo.address Demo.rebuild AMain Run.raced = None ->
     (exists k, main Run.raced = MReload (CbRecv k) /\
                ReloadFile (ws Run.raced) = []) \/
     (exists fr, main Run.raced = MWait fr /\ reloadServe (ws Run.raced) = []) \/
     (exists e, main Run.raced = MReturned e)).
Proof.
  split; [exact both_invoke_reaches|].
  split; [vm_compute; reflexivity|]. split; [vm_compute; reflexivity|].
  exact (goroutines_stop_only_at_channels _ _ _ _ _ _ both_invoke_reaches).
Defined.

(** A callback that does not wait runs through, in [cb_size] steps of the
    goroutine that called it, and leaves [cb_handler]. *)
Lemma coordinator_runs_callback W a f k :
  cb_waits k = false ->
  forall s, coord s = CReload k ->
  exists s',
    run W a f (repeat ACoord (cb_size k)) s = Some s' /\
    coord s' = CReload CbRet /\ main s' = main s /\
    reloadServe (ws s') = reloadServe (ws s) /\
    reloadFunc (ws s') = reloadFunc (ws s) /\
    Handler (ws s') = cb_handler k (Handler (ws s)) /\
    count is_spawn (trace s') = count is_spawn (trace s) /\
    count is_listen (trace s') = count is_listen (trace s).
Proof.
  induction k as [|k _|h k IH]; simpl; intros Hw s Hc.
  - exists s. repeat split; auto.
  - discriminate Hw.
  - destruct s as [[rf fn rs ad hd] m c wp sv lg tr]; simpl in *. subst c.
    simpl.
    edestruct (IH Hw) as (s' & Hrun & H1 & H2 & H3 & H4 & H5 & H6 & H7);
      [|exists s'; split; [exact Hrun|]]; [reflexivity|].
    simpl in *. repeat split; auto.
Qed.

Lemma caller_runs_callback W a f k :
  cb_waits k = false ->
  forall s, main s = MReload k ->
  exists s',
    run W a f (repeat AMain (cb_size k)) s = Some s' /\
    main s' = MReload CbRet /\ coord s' = coord s /\
    reloadServe (ws s') = reloadServe (ws s) /\
    reloadFunc (ws s') = reloadFunc (ws s) /\
    Addr (ws s') = Addr (ws s) /\
    Handler (ws s') = cb_handler k (Handler (ws s)) /\
    count is_spawn (trace s') = count is_spawn (trace s) /\
    count is_listen (trace s') = count is_listen (trace s).
Proof.
  induction k as [|k _|h k IH]; simpl; intros Hw s Hc.
  - exists s. repeat split; auto.
  - discriminate Hw.
  - destruct s as [[rf fn rs ad hd] m c wp sv lg tr]; simpl in *. subst m.
    simpl.
    edestruct (IH Hw) as (s' & Hrun & H1 & H2 & H3 & H4 & H5 & H6 & H7 & H8);
      [|exists s'; split; [exact Hrun|]]; [reflexivity|].
    simpl in *. repeat split; auto.
Qed.

Lemma startup_in_turn W address f filename l s0 :
  New W filename = Returned s0 ->
  net_Listen W (listen_addr address) = inr l ->
  cb_waits f = false ->
  exists s, run W address f (startup_of f) s0 = Some s /\
            between_cycles f l 0 s.
Proof.
  intros HN HL Hw. rewrite (New_Returned _ _ _ HN).
  unfold startup_of. rewrite run_app. simpl.
  rewrite run_app.
  edestruct (caller_runs_callback W address f f Hw)
    as (s1 & Hrun & Hm & Hc & Hrs & Hrf & Had & Hh & Hsp & Hli);
    [|rewrite Hrun]; [reflexivity|].
  destruct s1 as [[rf fn rs ad hd] m c wp sv lg tr]; simpl in *.
  subst m c rs fn ad hd.
  unfold step_main, listenAndServe; simpl. rewrite HL. simpl.
  eexists. split; [reflexivity|].
  unfold between_cycles; simpl. rewrite Hsp, Hli.
  repeat split; eauto.
Qed.

Lemma cycle_in_turn W address f l n s :
  cb_waits f = false ->
  between_cycles f l n s ->
  exists s', run W address f (cycle_of f) s = Some s' /\
             between_cycles f l (S n) s'.
Proof.
  intros Hw ((fr & Hm & Hfl) & Hc & Hrs & Hrf & Hsp & Hli & _).
  unfold cycle_of. rewrite run_app.
  destruct s as [[rf fn rs ad hd] m c wp sv lg tr]; simpl in *.
  subst m c rs fn. simpl. rewrite run_app.
  edestruct (coordinator_runs_callback W address f f Hw)
    as (s1 & Hrun & Hc1 & Hm1 & Hrs1 & Hrf1 & Hh1 & Hsp1 & Hli1);
    [|rewrite Hrun]; [reflexivity|].
  destruct s1 as [[rf1 fn1 rs1 ad1 hd1] m1 c1 wp1 sv1 lg1 tr1]; simpl in *.
  subst m1 c1 rs1 fn1 hd1. simpl.
  eexists. split; [reflexivity|].
  unfold between_cycles; simpl. rewrite Hsp1, Hli1, Hsp, Hli, Hfl.
  repeat split; eauto.
Qed.


